(** * HelloMCP: the database safety layer

    A shallow embedding of the SQL risk checker
    ([src/database/safety/risk_checker.py]), of the query classifier of
    the connector base class ([src/database/connectors/base.py]) and of
    the connection multiplexer ([src/database/db_tool.py]), followed by
    the properties the specification states about them; then of the
    tool server ([src/core/server.py]) and of the SQL routing of the
    agent ([src/ai/bedrock_agent.py]), with further properties of all
    five.

    Conventions of the embedding.
    - A Python [str] is a Rocq [string]; a character stands for the code
      point of the same number, so the texts covered are those over code
      points below 256.
    - [risk_score] and [execution_time] are Python floats.  Every score
      the checker builds is a sum of integer weights plus
      [min(total / 10.0, 1.0) * 5], which in binary64 is exactly
      [min(total, 10) / 2]; scores are therefore rationals ([Q]) here
      and the arithmetic is exact.
    - [async]/[await] is sequential composition: every coroutine of the
      modelled classes is awaited where it is called.  A call of the
      tool is run from its start to its end; what two interleaved
      resolutions do is modelled apart, in [Interleaving].
    - The Python is 3.11 or later (the repository runs under 3.12),
      which shows in the text of a formatted [DatabaseType] member.
    - The catalogue queries of the schema readers ([get_schema],
      [list_tables]) are work of the driver, a parameter of the
      embedding as the other driver calls are; [get_connection] is not
      part of the embedding. *)

From Stdlib Require Import String Ascii List Bool Arith NArith ZArith QArith.
From Stdlib Require Import Qminmax DecimalString DecimalZ Lia Lqa.
Import ListNotations.

Local Close Scope Q_scope.
Local Open Scope string_scope.

(* ===================================================================== *)
(** * Text: the [str] methods the sources use *)
(* ===================================================================== *)

Module Text.

Definition code (c : ascii) : N := N_of_ascii c.

Definition between (lo hi : N) (c : ascii) : bool :=
  ((lo <=? code c) && (code c <=? hi))%N.

(** [str.isspace] / the class [\s] on code points below 256. *)
Definition isspace (c : ascii) : bool :=
  between 9 13 c || between 28 32 c || between 133 133 c
  || between 160 160 c.

(** The class [\w] of [re] on [str] patterns: alphanumerics and the
    underscore, on code points below 256. *)
Definition isword (c : ascii) : bool :=
  between 48 57 c || between 65 90 c || between 95 95 c
  || between 97 122 c || between 170 170 c || between 178 179 c
  || between 181 181 c || between 185 186 c || between 188 190 c
  || between 192 214 c || between 216 246 c || between 248 255 c.

Definition shift (d : N) (up : bool) (c : ascii) : ascii :=
  ascii_of_N (if up then code c - d else code c + d).

(** Case folding used by [re.IGNORECASE] against the ASCII literals of
    the patterns: only an ASCII letter folds onto an ASCII letter. *)
Definition fold_case (c : ascii) : ascii :=
  if between 65 90 c then shift 32 false c else c.

Definition eqb_nocase (a b : ascii) : bool :=
  Ascii.eqb (fold_case a) (fold_case b).

(** [str.upper], character by character.  Three characters below 256
    have an upper case that is not one code point below 256 (sharp s,
    micro sign, y with diaeresis); none of them is or becomes an ASCII
    letter other than [S], and they are left in place. *)
Definition upper_char (c : ascii) : ascii :=
  if between 97 122 c then shift 32 true c
  else if between 224 246 c || between 248 254 c then shift 32 true c
  else c.

Fixpoint upper (s : string) : string :=
  match s with
  | EmptyString => EmptyString
  | String c s' => String (upper_char c) (upper s')
  end.

Fixpoint lstrip (s : string) : string :=
  match s with
  | String c s' => if isspace c then lstrip s' else s
  | EmptyString => EmptyString
  end.

Fixpoint rstrip (s : string) : string :=
  match s with
  | EmptyString => EmptyString
  | String c s' =>
      match rstrip s' with
      | EmptyString => if isspace c then EmptyString else String c EmptyString
      | r => String c r
      end
  end.

(** [str.strip()] with no argument. *)
Definition strip (s : string) : string := rstrip (lstrip s).

(** [s.startswith(p)]. *)
Definition startswith (s p : string) : bool := String.prefix p s.

(** [sep.join(l)]. *)
Fixpoint join (sep : string) (l : list string) : string :=
  match l with
  | [] => ""
  | [x] => x
  | x :: rest => x ++ sep ++ join sep rest
  end.

(** [str(n)] / [f"{n}"] for an [int]. *)
Definition str_of_int (n : Z) : string :=
  NilEmpty.string_of_int (Z.to_int n).

End Text.

(* ===================================================================== *)
(** * Re: the fragment of Python's [re] the sources use *)
(* ===================================================================== *)

Module Re.
Import Text.

(** Character classes. [Dot] is [.] without [re.DOTALL], [AnyChar]
    is [.] under [re.DOTALL]. *)
Inductive cls : Type := Space | Word | Dot | AnyChar.

Definition newline : ascii := "010"%char.

Definition in_cls (k : cls) (c : ascii) : bool :=
  match k with
  | Space => isspace c
  | Word => isword c
  | Dot => negb (Ascii.eqb c newline)
  | AnyChar => true
  end.

(** Patterns.  Every pattern of the sources is compiled or searched
    with [re.IGNORECASE], so a literal compares case-insensitively;
    every repetition in them is over a single character class. *)
Inductive regex : Type :=
| Eps                       (* the empty pattern *)
| Chr (c : ascii)           (* a literal character *)
| One (k : cls)             (* one character of a class *)
| Many (k : cls)            (* k*   greedy *)
| Few (k : cls)             (* k*?  lazy *)
| Seq (r1 r2 : regex)
| Alt (r1 r2 : regex)       (* r1|r2, left alternative first *)
| WordB                     (* \b *)
| EndS                      (* $ *)
| EndL.                     (* $ under re.MULTILINE *)

Definition Plus (k : cls) : regex := Seq (One k) (Many k).
Definition Opt (r : regex) : regex := Alt r Eps.

Fixpoint Lit (s : string) : regex :=
  match s with
  | EmptyString => Eps
  | String c EmptyString => Chr c
  | String c s' => Seq (Chr c) (Lit s')
  end.

Fixpoint Cat (rs : list regex) : regex :=
  match rs with
  | [] => Eps
  | [r] => r
  | r :: rest => Seq r (Cat rest)
  end.

Fixpoint AnyOf (rs : list regex) : regex :=
  match rs with
  | [] => Eps
  | [r] => r
  | r :: rest => Alt r (AnyOf rest)
  end.

(** A position of the subject: the character before it, if any, and
    the text from it on. *)
Definition cont : Type := option ascii -> string -> option string.

Definition word_before (prev : option ascii) : bool :=
  match prev with Some c => isword c | None => false end.

Definition word_after (s : string) : bool :=
  match s with String c _ => isword c | EmptyString => false end.

(** [$]: at the end, or before a newline that ends the text. *)
Definition at_end (s : string) : bool :=
  match s with
  | EmptyString => true
  | String c EmptyString => Ascii.eqb c newline
  | _ => false
  end.

(** [$] under [re.MULTILINE]: at the end or before any newline. *)
Definition at_eol (s : string) : bool :=
  match s with
  | EmptyString => true
  | String c _ => Ascii.eqb c newline
  end.

Definition orelse (a b : option string) : option string :=
  match a with Some _ => a | None => b end.

(** Greedy repetition: take as many characters as possible, give
    them back one at a time while the rest of the pattern fails. *)
Fixpoint many (p : ascii -> bool) (k : cont) (prev : option ascii)
    (s : string) : option string :=
  match s with
  | String c s' =>
      if p c then orelse (many p k (Some c) s') (k prev s) else k prev s
  | EmptyString => k prev s
  end.

(** Lazy repetition: take a character only when the rest fails. *)
Fixpoint few (p : ascii -> bool) (k : cont) (prev : option ascii)
    (s : string) : option string :=
  match k prev s with
  | Some r => Some r
  | None =>
      match s with
      | String c s' => if p c then few p k (Some c) s' else None
      | EmptyString => None
      end
  end.

(** The backtracking matcher: [run r k prev s] matches [r] at the
    position [(prev, s)] and hands the position after it to [k];
    the first success in the engine's order of preference wins. *)
Fixpoint run (r : regex) (k : cont) (prev : option ascii) (s : string)
    : option string :=
  match r with
  | Eps => k prev s
  | Chr c =>
      match s with
      | String x s' => if eqb_nocase c x then k (Some x) s' else None
      | EmptyString => None
      end
  | One cl =>
      match s with
      | String x s' => if in_cls cl x then k (Some x) s' else None
      | EmptyString => None
      end
  | Many cl => many (in_cls cl) k prev s
  | Few cl => few (in_cls cl) k prev s
  | Seq r1 r2 => run r1 (run r2 k) prev s
  | Alt r1 r2 => orelse (run r1 k prev s) (run r2 k prev s)
  | WordB =>
      if xorb (word_before prev) (word_after s) then k prev s else None
  | EndS => if at_end s then k prev s else None
  | EndL => if at_eol s then k prev s else None
  end.

(** A match starting exactly here; the result is the text after it. *)
Definition match_at (r : regex) (prev : option ascii) (s : string)
    : option string :=
  run r (fun _ rest => Some rest) prev s.

Definition is_some {A} (o : option A) : bool :=
  match o with Some _ => true | None => false end.

Fixpoint search_from (r : regex) (prev : option ascii) (s : string)
    : bool :=
  is_some (match_at r prev s)
  || match s with
     | String c s' => search_from r (Some c) s'
     | EmptyString => false
     end.

(** [bool(pattern.search(s))]. *)
Definition search (r : regex) (s : string) : bool := search_from r None s.

(** Number of characters a match starting here consumes. *)
Definition match_length (r : regex) (prev : option ascii) (s : string)
    : option nat :=
  match match_at r prev s with
  | Some rest => Some (String.length s - String.length rest)
  | None => None
  end.

(** Left-to-right scan for non-overlapping matches; [skip] counts the
    characters of the current match still to step over. *)
Fixpoint count_from (r : regex) (skip : nat) (prev : option ascii)
    (s : string) : nat :=
  match skip, s with
  | S n, String c s' => count_from r n (Some c) s'
  | S _, EmptyString => 0
  | O, String c s' =>
      match match_length r prev s with
      | Some n => S (count_from r (pred n) (Some c) s')
      | None => count_from r 0 (Some c) s'
      end
  | O, EmptyString =>
      match match_length r prev s with Some _ => 1 | None => 0 end
  end.

(** [len(re.findall(pattern, s))]. *)
Definition findall_count (r : regex) (s : string) : nat :=
  count_from r 0 None s.

Fixpoint delete_from (r : regex) (skip : nat) (prev : option ascii)
    (s : string) : string :=
  match s with
  | EmptyString => EmptyString
  | String c s' =>
      match skip with
      | S n => delete_from r n (Some c) s'
      | O =>
          match match_length r prev s with
          | Some (S n) => delete_from r n (Some c) s'
          | _ => String c (delete_from r 0 (Some c) s')
          end
      end
  end.

(** [re.sub(pattern, "", s)] for a pattern that matches no empty
    text. *)
Definition sub_empty (r : regex) (s : string) : string :=
  delete_from r 0 None s.

End Re.

(* ===================================================================== *)
(** * Models: [src/models/__init__.py] *)
(* ===================================================================== *)

Module Models.

Inductive DatabaseType : Type := POSTGRESQL | MYSQL | ORACLE | SQLITE.

Inductive QueryType : Type :=
  SELECT | INSERT | UPDATE | DELETE | CREATE | ALTER | DROP.

Inductive RiskLevel : Type := LOW | MEDIUM | HIGH | CRITICAL.

(** The value of a member of the [str]-based enum. *)
Definition DatabaseType_value (t : DatabaseType) : string :=
  match t with
  | POSTGRESQL => "postgresql"
  | MYSQL => "mysql"
  | ORACLE => "oracle"
  | SQLITE => "sqlite"
  end.

Definition QueryType_value (t : QueryType) : string :=
  match t with
  | SELECT => "SELECT" | INSERT => "INSERT" | UPDATE => "UPDATE"
  | DELETE => "DELETE" | CREATE => "CREATE" | ALTER => "ALTER"
  | DROP => "DROP"
  end.

Record DatabaseConnection : Type := {
  host : string;
  port : Z;
  database : string;
  username : string;
  password : string;
  database_type : DatabaseType;
  ssl_mode : option string;
  connection_timeout : Z;
  pool_size : Z
}.

(** A row of a result set: column name to value, in column order. *)
Definition row : Type := list (string * string).

Definition parameters_t : Type := option (list (string * string)).

Record DatabaseQuery : Type := {
  query : string;
  parameters : parameters_t;
  database_connection : DatabaseConnection;
  timeout : Z;
  max_rows : option Z
}.

Record QueryResult : Type := {
  success : bool;
  data : option (list row);
  row_count : Z;
  execution_time : Q;
  error_message : option string;
  columns : option (list string);
  query_type : option QueryType
}.

Record QueryRiskAssessment : Type := {
  risk_level : RiskLevel;
  risk_score : Q;
  warnings : list string;
  dangerous_operations : list string;
  is_safe : bool;
  recommendation : option string
}.

Definition set_execution_time (t : Q) (r : QueryResult) : QueryResult :=
  {| success := success r; data := data r; row_count := row_count r;
     execution_time := t; error_message := error_message r;
     columns := columns r; query_type := query_type r |}.

End Models.

(* ===================================================================== *)
(** * The query classifier of [BaseDatabaseConnector] *)
(* ===================================================================== *)

Module Base.
Import Text Models.

Definition _parse_query_type (query : string) : QueryType :=
  let q := upper (strip query) in
  if startswith q "SELECT" then SELECT
  else if startswith q "INSERT" then INSERT
  else if startswith q "UPDATE" then UPDATE
  else if startswith q "DELETE" then DELETE
  else if startswith q "CREATE" then CREATE
  else if startswith q "ALTER" then ALTER
  else if startswith q "DROP" then DROP
  else SELECT.

End Base.

(* ===================================================================== *)
(** * SQLRiskChecker: [src/database/safety/risk_checker.py] *)
(* ===================================================================== *)

(** [sqlparse] is a third-party library; the checker only asks whether
    [sqlparse.parse(query)] is empty.  [sqlparse_parse q] is the number of
    statements the library returns for [q]. *)
Class SqlParse : Type := sqlparse_parse : string -> nat.

Module RiskChecker.
Import Text Re Models.

Definition b : regex := WordB.
Definition s1 : regex := Plus Space.       (* \s+ *)
Definition s0 : regex := Many Space.       (* \s* *)
Definition w1 : regex := Plus Word.        (* \w+ *)

(* \bDROP\s+TABLE\b *)
Definition pat_drop_table := Cat [b; Lit "DROP"; s1; Lit "TABLE"; b].
(* \bDROP\s+DATABASE\b *)
Definition pat_drop_database := Cat [b; Lit "DROP"; s1; Lit "DATABASE"; b].
(* \bTRUNCATE\s+TABLE\b *)
Definition pat_truncate_table := Cat [b; Lit "TRUNCATE"; s1; Lit "TABLE"; b].
(* \bDELETE\s+(FROM\s+)?\w+\s*$ *)
Definition pat_delete_all :=
  Cat [b; Lit "DELETE"; s1; Opt (Seq (Lit "FROM") s1); w1; s0; EndS].
(* \bUPDATE\s+\w+\s+SET\b.*\bWHERE\s*$ *)
Definition pat_update_all :=
  Cat [b; Lit "UPDATE"; s1; w1; s1; Lit "SET"; b; Many Dot; b;
       Lit "WHERE"; s0; EndS].
(* \bALTER\s+TABLE\s+\w+\s+DROP\b *)
Definition pat_alter_table_drop :=
  Cat [b; Lit "ALTER"; s1; Lit "TABLE"; s1; w1; s1; Lit "DROP"; b].
(* \bGRANT\s+ALL\b *)
Definition pat_grant_all := Cat [b; Lit "GRANT"; s1; Lit "ALL"; b].
(* \bREVOKE\s+ALL\b *)
Definition pat_revoke_all := Cat [b; Lit "REVOKE"; s1; Lit "ALL"; b].
(* \bEXEC\b|\bEXECUTE\b *)
Definition pat_exec :=
  Alt (Cat [b; Lit "EXEC"; b]) (Cat [b; Lit "EXECUTE"; b]).
(* \bxp_cmdshell\b *)
Definition pat_xp_cmdshell := Cat [b; Lit "xp_cmdshell"; b].

(** [self.dangerous_patterns], in the insertion order of the dict. *)
Definition dangerous_patterns : list (string * regex) :=
  [ ("drop_table", pat_drop_table);
    ("drop_database", pat_drop_database);
    ("truncate_table", pat_truncate_table);
    ("delete_all", pat_delete_all);
    ("update_all", pat_update_all);
    ("alter_table_drop", pat_alter_table_drop);
    ("grant_all", pat_grant_all);
    ("revoke_all", pat_revoke_all);
    ("exec", pat_exec);
    ("xp_cmdshell", pat_xp_cmdshell) ].

(** [self.risk_weights]. *)
Definition w_dangerous_operation : Q := 30.
Definition w_data_modification : Q := 15.
Definition w_schema_change : Q := 25.
Definition w_no_where_clause : Q := 20.
Definition w_wildcard_select : Q := 10.
Definition w_system_command : Q := 40.
Definition w_complex_query : Q := 5.

Definition max_risk_score : Q := 100.

(** [self.risk_thresholds]; the entry ["low"] is never read. *)
Definition t_low : Q := 20.
Definition t_medium : Q := 40.
Definition t_high : Q := 70.
Definition t_critical : Q := 90.

Definition any_search (pats : list regex) (query : string) : bool :=
  existsb (fun p => search p query) pats.

Definition _is_data_modification_query (query : string) : bool :=
  any_search
    [ Cat [b; Lit "INSERT"; s1; Lit "INTO"; b];
      Cat [b; Lit "UPDATE"; s1; w1; s1; Lit "SET"; b];
      Cat [b; Lit "DELETE"; s1; Lit "FROM"; b];
      Cat [b; Lit "MERGE"; s1; Lit "INTO"; b] ] query.

Definition _is_schema_change_query (query : string) : bool :=
  any_search
    [ Cat [b; Lit "CREATE"; s1; Lit "TABLE"; b];
      Cat [b; Lit "ALTER"; s1; Lit "TABLE"; b];
      Cat [b; Lit "DROP"; s1; Lit "TABLE"; b];
      Cat [b; Lit "CREATE"; s1; Lit "INDEX"; b];
      Cat [b; Lit "DROP"; s1; Lit "INDEX"; b];
      Cat [b; Lit "CREATE"; s1; Lit "VIEW"; b];
      Cat [b; Lit "DROP"; s1; Lit "VIEW"; b] ] query.

(** [--.*$] under MULTILINE and [/\*.*?\*/] under DOTALL. *)
Definition pat_line_comment := Cat [Lit "--"; Many Dot; EndL].
Definition pat_block_comment := Cat [Lit "/*"; Few AnyChar; Lit "*/"].

Definition _has_missing_where_clause (query : string) : bool :=
  let up := Cat [b; Lit "UPDATE"; s1; w1; s1; Lit "SET"; b] in
  let de := pat_delete_all in
  let q := sub_empty pat_line_comment query in
  let q := strip (sub_empty pat_block_comment q) in
  if search up q || search de q
  then negb (search (Cat [b; Lit "WHERE"; b; Many Dot; EndS]) q)
  else false.

Definition _has_wildcard_select (query : string) : bool :=
  search (Cat [b; Lit "SELECT"; s1; Chr "*"; b]) query.

Definition _contains_system_commands (query : string) : bool :=
  any_search
    [ Cat [b; Lit "SHUTDOWN"; b];
      Cat [b; Lit "BACKUP"; s1; Lit "DATABASE"; b];
      Cat [b; Lit "RESTORE"; s1; Lit "DATABASE"; b];
      Cat [b; Lit "EXEC"; s1; Lit "sp_"];
      Cat [b; Lit "xp_cmdshell"; b] ] query.

Definition complexity_factors : list regex :=
  [ (* subqueries, under DOTALL *)
    Cat [b; Lit "SELECT"; b; Many AnyChar; b; Lit "FROM"; b; Many AnyChar;
         Chr "("; s0; Lit "SELECT"; b];
    (* joins *)
    Cat [b; AnyOf [Lit "JOIN"; Lit "INNER JOIN"; Lit "LEFT JOIN";
                   Lit "RIGHT JOIN"; Lit "FULL JOIN"]; b];
    (* unions, group_by, having, order_by, case_statements *)
    Cat [b; Lit "UNION"; b];
    Cat [b; Lit "GROUP"; s1; Lit "BY"; b];
    Cat [b; Lit "HAVING"; b];
    Cat [b; Lit "ORDER"; s1; Lit "BY"; b];
    Cat [b; Lit "CASE"; b];
    (* functions *)
    Cat [b; AnyOf [Lit "COUNT"; Lit "SUM"; Lit "AVG"; Lit "MIN"; Lit "MAX";
                   Lit "CONCAT"; Lit "SUBSTRING"]; b] ].

Definition _calculate_complexity_score (query : string) : Q :=
  let total :=
    fold_right Nat.add 0
      (map (fun p => findall_count p query) complexity_factors) in
  Qmin (inject_Z (Z.of_nat total) / 10) 1.

Definition _determine_risk_level (score : Q) : RiskLevel :=
  if Qle_bool t_critical score then CRITICAL
  else if Qle_bool t_high score then HIGH
  else if Qle_bool t_medium score then MEDIUM
  else LOW.

Definition _recommendation (level : RiskLevel) (dangerous : list string)
    (warnings : list string) : string :=
  match level with
  | CRITICAL => "Query blocked: Critical risk level"
  | HIGH => "High risk query"
  | MEDIUM => "Medium risk query"
  | LOW =>
      match dangerous, warnings with
      | _ :: _, _ => "Dangerous operations: " ++ join ", " dangerous
      | [], w :: _ => w
      | [], [] => "Query appears safe"
      end
  end.

(** The local variables [score], [warnings], [dangerous] and [safe] of
    [assess_query_risk]. *)
Record locals : Type := {
  l_score : Q;
  l_warnings : list string;
  l_dangerous : list string;
  l_safe : bool
}.

Definition locals0 : locals :=
  {| l_score := 0; l_warnings := []; l_dangerous := []; l_safe := true |}.

(** One heuristic firing: add [weight], append [warning] and, where
    the source assigns [safe = False], clear [safe]. *)
Definition fire (weight : Q) (warning : string) (unsafe : bool)
    (l : locals) : locals :=
  {| l_score := l_score l + weight;
     l_warnings := l_warnings l ++ [warning];
     l_dangerous := l_dangerous l;
     l_safe := if unsafe then false else l_safe l |}.

Definition when (c : bool) (f : locals -> locals) (l : locals) : locals :=
  if c then f l else l.

(** The body of the loop over [self.dangerous_patterns.items()]. *)
Definition dangerous_step (query : string) (l : locals)
    (entry : string * regex) : locals :=
  let (name, pattern) := entry in
  if search pattern query then
    {| l_score := l_score l + w_dangerous_operation;
       l_warnings :=
         l_warnings l ++ ["Dangerous operation detected: " ++ name];
       l_dangerous := l_dangerous l ++ [name];
       l_safe := false |}
  else l.

Definition dangerous_loop (query : string) : locals :=
  fold_left (dangerous_step query) dangerous_patterns locals0.

(** The statements after the loop, up to the complexity term. *)
Definition heuristics (query : string) (l : locals) : locals :=
  let l := when (_is_data_modification_query query)
             (fire w_data_modification
                "Data modification operation detected" false) l in
  let l := when (_is_schema_change_query query)
             (fire w_schema_change
                "Schema modification operation detected" false) l in
  let l := when (_has_missing_where_clause query)
             (fire w_no_where_clause
                "UPDATE/DELETE query without WHERE clause" true) l in
  let l := when (_has_wildcard_select query)
             (fire w_wildcard_select
                "Wildcard SELECT statement detected" false) l in
  let l := when (_contains_system_commands query)
             (fire w_system_command "System command detected" true) l in
  l.

Section Assess.
Context {parser : SqlParse}.

Definition assess_query_risk (query : string) : QueryRiskAssessment :=
  match sqlparse_parse query with
  | O =>
      {| risk_level := HIGH; risk_score := 80;
         warnings := ["Invalid SQL syntax"];
         dangerous_operations := [];
         is_safe := false;
         recommendation := Some "Unable to parse SQL query" |}
  | S _ =>
      let l := heuristics query (dangerous_loop query) in
      let score : Q :=
        (l_score l
         + _calculate_complexity_score query * w_complex_query)%Q in
      let score := Qmin score max_risk_score in
      let level := _determine_risk_level score in
      let rec := _recommendation level (l_dangerous l) (l_warnings l) in
      {| risk_level := level; risk_score := score;
         warnings := l_warnings l;
         dangerous_operations := l_dangerous l;
         is_safe := l_safe l && negb (Qle_bool t_high score);
         recommendation := Some rec |}
  end.

End Assess.

(** An instance for running the checker: a text yields a statement
    exactly when it holds a character that is not white space. *)
Definition nonblank_parser : SqlParse :=
  fun q => match strip q with EmptyString => 0 | _ => 1 end.

End RiskChecker.

(* ===================================================================== *)
(** * Py: exceptions and effects *)
(* ===================================================================== *)

Module Py.

(** The classes of [Exception] that occur: those the sources raise
    themselves, the error class of a database driver
    ([psycopg2.Error], [mysql.connector.Error], [cx_Oracle.Error]) and
    any other subclass of [Exception].  Signals that derive from
    [BaseException] only (interrupts, task cancellation) belong to
    the interpreter and the scheduler and are not events of this
    model. *)
Inductive exn_class : Type :=
  ValueError | KeyError | ConnectionError | RuntimeError | DriverError
| OtherException.

(** An exception: its class and [str(e)]. *)
Record exn : Type := { e_class : exn_class; e_str : string }.

Inductive outcome (A : Type) : Type :=
| Return (a : A)
| Raise (e : exn).
Arguments Return {A} a.
Arguments Raise {A} e.

Definition is_driver_error (e : exn) : bool :=
  match e_class e with DriverError => true | _ => false end.

(** [x or default] for an optional string. *)
Definition or_default (x : option string) (default : string) : string :=
  match x with
  | Some EmptyString | None => default
  | Some s => s
  end.

Section Monad.
Variable W : Type.

(** A computation over the state [W] that returns or raises. *)
Definition M (A : Type) : Type := W -> outcome A * W.

Definition ret {A} (a : A) : M A := fun w => (Return a, w).

Definition raise {A} (e : exn) : M A := fun w => (Raise e, w).

Definition bind {A B} (m : M A) (f : A -> M B) : M B :=
  fun w =>
    match m w with
    | (Return a, w') => f a w'
    | (Raise e, w') => (Raise e, w')
    end.

Definition gets {A} (f : W -> A) : M A := fun w => (Return (f w), w).

Definition modify (f : W -> W) : M unit := fun w => (Return tt, f w).

(** [try: body  except Exception as e: handler(e)]. *)
Definition try_except {A} (body : M A) (handler : exn -> M A) : M A :=
  fun w =>
    match body w with
    | (Return a, w') => (Return a, w')
    | (Raise e, w') => handler e w'
    end.

(** [try: body  finally: final]: [final] runs either way; an
    exception of [body] is raised again after it. *)
Definition try_finally {A} (body : M A) (final : M unit) : M A :=
  fun w =>
    match body w with
    | (Return a, w') =>
        match final w' with
        | (Return _, w'') => (Return a, w'')
        | (Raise e, w'') => (Raise e, w'')
        end
    | (Raise e, w') =>
        match final w' with
        | (Return _, w'') => (Raise e, w'')
        | (Raise e', w'') => (Raise e', w'')
        end
    end.

(** [for x in l: body(x)]. *)
Fixpoint for_each {A} (l : list A) (body : A -> M unit) : M unit :=
  match l with
  | [] => ret tt
  | x :: rest => bind (body x) (fun _ => for_each rest body)
  end.

End Monad.

Arguments ret {W A} a.
Arguments raise {W A} e.
Arguments bind {W A B} m f.
Arguments gets {W A} f.
Arguments modify {W} f.
Arguments try_except {W A} body handler.
Arguments try_finally {W A} body final.
Arguments for_each {W A} l body.

(** An insertion-ordered [dict] with [str] keys. *)
Section Dict.
Variable V : Type.

Definition dict : Type := list (string * V).

Fixpoint dict_get (k : string) (d : dict) : option V :=
  match d with
  | [] => None
  | (k', v) :: rest => if String.eqb k k' then Some v else dict_get k rest
  end.

(** [d[k] = v]: a present key keeps its place. *)
Fixpoint dict_set (k : string) (v : V) (d : dict) : dict :=
  match d with
  | [] => [(k, v)]
  | (k', v') :: rest =>
      if String.eqb k k' then (k', v) :: rest
      else (k', v') :: dict_set k v rest
  end.

Fixpoint dict_remove (k : string) (d : dict) : dict :=
  match d with
  | [] => []
  | (k', v') :: rest =>
      if String.eqb k k' then rest else (k', v') :: dict_remove k rest
  end.

End Dict.

Arguments dict_get {V} k d.
Arguments dict_set {V} k v d.
Arguments dict_remove {V} k d.

End Py.

Declare Scope py_scope.
Delimit Scope py_scope with py.
Notation "x <- m ;; k" := (Py.bind m (fun x => k))
  (at level 61, m at next level, right associativity) : py_scope.
Notation "m ;; k" := (Py.bind m (fun _ => k))
  (at level 61, right associativity) : py_scope.

(* ===================================================================== *)
(** * The environment of the multiplexer *)
(* ===================================================================== *)

(** What lies outside the repository: the native database drivers, the
    module loader and the wall clock.  [E] is the state of that
    environment; every operation may change it, and every driver call
    may raise. *)
Class Environment (E : Type) : Type := {
  (** [psycopg2.connect], [mysql.connector.connect], [cx_Oracle.connect]:
      a handle of the native connection. *)
  driver_connect : Models.DatabaseConnection -> E -> Py.outcome nat * E;
  (** [self._connection.close]. *)
  driver_close : nat -> E -> Py.outcome unit * E;
  (** [cursor.execute(query, parameters)]. *)
  cursor_execute :
    nat -> string -> Models.parameters_t -> E -> Py.outcome unit * E;
  (** [cursor.fetchall()] and the names in [cursor.description]. *)
  cursor_fetchall :
    nat -> E -> Py.outcome (list Models.row * list string) * E;
  (** [cursor.rowcount] followed by [self._connection.commit()]. *)
  cursor_commit : nat -> E -> Py.outcome Z * E;
  (** The cursor work of [_validate]: explain the statement. *)
  driver_explain : nat -> string -> E -> Py.outcome unit * E;
  (** The cursor work of [_test]: [bool(row)] of a one-row probe. *)
  driver_probe : nat -> E -> Py.outcome bool * E;
  (** [importlib.import_module] and [getattr] on a class path. *)
  import_class : string -> E -> Py.outcome unit * E;
  (** [time.time()]. *)
  time_time : E -> Q * E
}.

(* ===================================================================== *)
(** * Connectors and DatabaseTool: [src/database/db_tool.py] *)
(* ===================================================================== *)

Module DbTool.
Import Text Models Py.
Local Open Scope py_scope.

(** A connector object.  [PostgreSQLConnector], [MySQLConnector] and
    [OracleConnector] share the control flow modelled here and differ
    in the driver calls, which belong to the environment.  [oid] is
    the identity of the object. *)
Record Connector : Type := {
  oid : nat;
  connection : DatabaseConnection;
  _is_connected : bool;
  _connection : option nat
}.

Definition with_link (h : option nat) (up : bool) (c : Connector)
    : Connector :=
  {| oid := oid c; connection := connection c;
     _is_connected := up; _connection := h |}.

(** The methods of a connector that the multiplexer invokes. *)
Inductive method : Type :=
| m_connect
| m_execute_query (query : string)
| m_validate_syntax (query : string)
| m_test_connection
| m_close.

(** One invocation of a connector method: the callee and the method. *)
Inductive call : Type := Call (callee : nat) (m : method).

Section Tool.
Context {E : Type} {environment : Environment E} {parser : SqlParse}.

(** The state: the fields of a [DatabaseTool] ([_connectors]), the
    allocator of object identities, the environment, and the
    instrumentation [calls], the connector methods invoked so far,
    oldest first.  A connector held by [_connectors] is stored by
    value: no method changes a connector while the cache holds it
    ([connect] runs before the insertion, [close] is followed by
    the deletion or raises before any assignment). *)
Record World : Type := {
  _connectors : dict Connector;
  next_oid : nat;
  calls : list call;
  backend : E
}.

Definition with_connectors (f : dict Connector -> dict Connector)
    (w : World) : World :=
  {| _connectors := f (_connectors w); next_oid := next_oid w;
     calls := calls w; backend := backend w |}.

Definition with_backend (e : E) (w : World) : World :=
  {| _connectors := _connectors w; next_oid := next_oid w;
     calls := calls w; backend := e |}.

(** A fresh [DatabaseTool()] in the environment [e]. *)
Definition init (e : E) : World :=
  {| _connectors := []; next_oid := 0; calls := []; backend := e |}.

(** A call into the environment. *)
Definition env {A} (f : E -> outcome A * E) : M World A :=
  fun w => let (r, e) := f (backend w) in (r, with_backend e w).

Definition now : M World Q :=
  fun w => let (t, e) := time_time (backend w) in
           (Return t, with_backend e w).

Definition log (c : Connector) (m : method) : M World unit :=
  modify (fun w =>
    {| _connectors := _connectors w; next_oid := next_oid w;
       calls := calls w ++ [Call (oid c) m]; backend := backend w |}).

(** [cls(connection)]: a new, disconnected connector. *)
Definition construct (connection : DatabaseConnection)
    : M World Connector :=
  fun w =>
    (Return {| oid := next_oid w; connection := connection;
               _is_connected := false; _connection := None |},
     {| _connectors := _connectors w; next_oid := S (next_oid w);
        calls := calls w; backend := backend w |}).

Definition mk_exn (k : exn_class) (msg : string) : exn :=
  {| e_class := k; e_str := msg |}.

(** Calling a method on [self._connection] while it is [None]. *)
Definition no_handle {A} : M World A :=
  raise (mk_exn OtherException
           "'NoneType' object has no attribute 'cursor'").

(** ** The connector methods *)

Definition connect (c : Connector) : M World Connector :=
  log c m_connect ;;
  try_except
    (h <- env (driver_connect (connection c)) ;;
     ret (with_link (Some h) true c))
    (fun e =>
       if is_driver_error e then raise (mk_exn ConnectionError (e_str e))
       else raise e).

Definition disconnect (c : Connector) : M World Connector :=
  match _connection c with
  | Some h => env (driver_close h) ;; ret (with_link None false c)
  | None => ret c
  end.

Definition close (c : Connector) : M World Connector :=
  log c m_close ;;
  if _is_connected c then
    c' <- disconnect c ;;
    ret (with_link (_connection c') false c')
  else ret c.

Definition get_query_type (query : string) : QueryType :=
  Base._parse_query_type query.

(** The closure [_execute]. *)
Definition _execute (h : nat) (query : string) (params : parameters_t)
    : M World QueryResult :=
  let qt := get_query_type query in
  env (cursor_execute h query params) ;;
  match qt with
  | SELECT =>
      fetched <- env (cursor_fetchall h) ;;
      ret {| success := true; data := Some (fst fetched);
             row_count := Z.of_nat (List.length (fst fetched));
             execution_time := 0; error_message := None;
             columns := Some (snd fetched); query_type := Some qt |}
  | _ =>
      rc <- env (cursor_commit h) ;;
      ret {| success := true; data := None; row_count := rc;
             execution_time := 0; error_message := None;
             columns := None; query_type := Some qt |}
  end.

Definition c_execute_query (c : Connector) (query : string)
    (params : parameters_t) : M World QueryResult :=
  log c (m_execute_query query) ;;
  if negb (_is_connected c) then raise (mk_exn RuntimeError "Not connected")
  else match _connection c with
       | Some h => _execute h query params
       | None => no_handle
       end.

Definition c_validate_syntax (c : Connector) (query : string)
    : M World bool :=
  log c (m_validate_syntax query) ;;
  if negb (_is_connected c) then ret false
  else
    try_except
      (match _connection c with
       | Some h => env (driver_explain h query) ;; ret true
       | None => no_handle
       end)
      (fun e => if is_driver_error e then ret false else raise e).

Definition c_test_connection (c : Connector) : M World bool :=
  log c m_test_connection ;;
  if negb (_is_connected c) then ret false
  else
    try_except
      (match _connection c with
       | Some h => env (driver_probe h)
       | None => no_handle
       end)
      (fun _ => ret false).

(** ** DatabaseTool *)

(** [self._connector_types.get(database_type)]. *)
Definition _connector_types (t : DatabaseType) : option string :=
  match t with
  | POSTGRESQL =>
      Some "src.database.connectors.postgresql.PostgreSQLConnector"
  | MYSQL => Some "src.database.connectors.mysql.MySQLConnector"
  | ORACLE => Some "src.database.connectors.oracle.OracleConnector"
  | SQLITE => None
  end.

(** [f"{c.database_type}"].  [DatabaseType] mixes [str] into [Enum]
    and is no [StrEnum], so from Python 3.11 on, and the repository
    runs under 3.12, [format] renders a member as [str] does: by its
    qualified name, not by its value.  (Before 3.11 the text was the
    value.) *)
Definition format_database_type (t : DatabaseType) : string :=
  match t with
  | POSTGRESQL => "DatabaseType.POSTGRESQL"
  | MYSQL => "DatabaseType.MYSQL"
  | ORACLE => "DatabaseType.ORACLE"
  | SQLITE => "DatabaseType.SQLITE"
  end.

Definition _conn_key (c : DatabaseConnection) : string :=
  format_database_type (database_type c) ++ ":" ++ host c ++ ":"
  ++ str_of_int (port c) ++ ":" ++ database c ++ ":" ++ username c.

Definition _get_connector (connection : DatabaseConnection)
    : M World Connector :=
  let key := _conn_key connection in
  conn <- gets (fun w => dict_get key (_connectors w)) ;;
  match conn with
  | Some c => ret c
  | None =>
      match _connector_types (database_type connection) with
      | None =>
          raise (mk_exn ValueError
                   ("Unsupported database type: "
                    ++ format_database_type (database_type connection)))
      | Some cls_path =>
          env (import_class cls_path) ;;
          c <- construct connection ;;
          c <- connect c ;;
          modify (with_connectors (dict_set key c)) ;;
          ret c
      end
  end.

(** [del self._connectors[key]]. *)
Definition del_connector (key : string) : M World unit :=
  conn <- gets (fun w => dict_get key (_connectors w)) ;;
  match conn with
  | Some _ => modify (with_connectors (dict_remove key))
  | None => raise (mk_exn KeyError ("'" ++ key ++ "'"))
  end.

Definition failed_result (msg : string) (elapsed : Q) : QueryResult :=
  {| success := false; data := None; row_count := 0;
     execution_time := elapsed; error_message := Some msg;
     columns := None; query_type := Some SELECT |}.

(** Lines 28 to 31 of [execute_query]. *)
Definition run_on_connector (start : Q) (q : DatabaseQuery)
    : M World QueryResult :=
  c <- _get_connector (database_connection q) ;;
  res <- c_execute_query c (query q) (parameters q) ;;
  t <- now ;;
  ret (set_execution_time (t - start)%Q res).

(** The [try] block of [execute_query]. *)
Definition execute_query_body (start : Q) (q : DatabaseQuery)
    (validate_safety : bool) : M World QueryResult :=
  if validate_safety then
    let ra := RiskChecker.assess_query_risk (query q) in
    if negb (is_safe ra) then
      t <- now ;;
      ret (failed_result (or_default (recommendation ra) "Query blocked")
             (t - start)%Q)
    else run_on_connector start q
  else run_on_connector start q.

Definition execute_query (q : DatabaseQuery) (validate_safety : bool)
    : M World QueryResult :=
  start <- now ;;
  try_except (execute_query_body start q validate_safety)
    (fun e => t <- now ;; ret (failed_result (e_str e) (t - start)%Q)).

(** The [try] block of [validate_query]. *)
Definition validate_query_body (query : string)
    (connection : DatabaseConnection) : M World QueryRiskAssessment :=
  c <- _get_connector connection ;;
  syntax_ok <- c_validate_syntax c query ;;
  let ra := RiskChecker.assess_query_risk query in
  if negb syntax_ok then
    ret {| risk_level := risk_level ra; risk_score := risk_score ra;
           warnings := warnings ra;
           dangerous_operations := dangerous_operations ra;
           is_safe := false;
           recommendation := Some "Query has syntax errors" |}
  else ret ra.

Definition validate_query (query : string)
    (connection : DatabaseConnection) : M World QueryRiskAssessment :=
  try_except (validate_query_body query connection)
    (fun e =>
       ret {| risk_level := HIGH; risk_score := 100; warnings := [];
              dangerous_operations := []; is_safe := false;
              recommendation :=
                Some ("Validation failed: " ++ e_str e) |}).

(** The [try] block of [test_connection]. *)
Definition test_connection_body (connection : DatabaseConnection)
    : M World bool :=
  c <- _get_connector connection ;;
  c_test_connection c.

Definition test_connection (connection : DatabaseConnection)
    : M World bool :=
  try_except (test_connection_body connection) (fun _ => ret false).

Definition close_connection (connection : DatabaseConnection)
    : M World unit :=
  let key := _conn_key connection in
  conn <- gets (fun w => dict_get key (_connectors w)) ;;
  match conn with
  | Some c => close c ;; del_connector key
  | None => ret tt
  end.

Definition close_all_connections : M World unit :=
  items <- gets (fun w => _connectors w) ;;
  for_each items
    (fun item =>
       try_finally (close (snd item) ;; ret tt)
                   (del_connector (fst item))).

End Tool.

(** ** A test double of the environment

    The state counts the clock reads and the handles given out.
    [connect] always succeeds with the next handle; closing a handle
    for which [lost] holds raises the driver's error, as a native
    connection does once its server side is gone; statements return
    no rows. *)
Record stub_state : Type := { ticks : nat; opened : nat }.

Definition stub (lost : nat -> bool) : Environment stub_state :=
  {| driver_connect := fun _ e =>
       (Return (opened e), {| ticks := ticks e; opened := S (opened e) |});
     driver_close := fun h e =>
       if lost h
       then (Raise {| e_class := DriverError;
                      e_str := "connection already closed" |}, e)
       else (Return tt, e);
     cursor_execute := fun _ _ _ e => (Return tt, e);
     cursor_fetchall := fun _ e => (Return ([], []), e);
     cursor_commit := fun _ e => (Return 0%Z, e);
     driver_explain := fun _ _ e => (Return tt, e);
     driver_probe := fun _ e => (Return true, e);
     import_class := fun _ e => (Return tt, e);
     time_time := fun e =>
       (inject_Z (Z.of_nat (ticks e)),
        {| ticks := S (ticks e); opened := opened e |}) |}.

Definition stub0 : stub_state := {| ticks := 0; opened := 0 |}.

(** The world a computation leaves, and its outcome. *)
Definition after {W A} (m : M W A) (w : W) : W := snd (m w).
Definition result {W A} (m : M W A) (w : W) : outcome A := fst (m w).

(** The outcome is a returned value with the property [p]. *)
Definition returned {A} (o : outcome A) (p : A -> Prop) : Prop :=
  match o with Return a => p a | Raise _ => False end.

End DbTool.

(* ===================================================================== *)
(** * The wording of the specification *)
(* ===================================================================== *)

(** Notions the specification uses in its sentences and the sources do
    not define; the properties below relate them to the code. *)
Module Spec.
Import Text Re Models.

(** The seven keywords the classifier knows. *)
Definition keywords : list QueryType :=
  [SELECT; INSERT; UPDATE; DELETE; CREATE; ALTER; DROP].

(** The leading keyword of a statement in the words of the
    specification: the first word (maximal run of word characters) of
    the trimmed statement, in upper case. *)
Fixpoint first_word (s : string) : string :=
  match s with
  | String c s' => if isword c then String c (first_word s') else ""
  | EmptyString => ""
  end.

Definition leading_keyword (statement : string) : string :=
  upper (first_word (strip statement)).

Definition is_keyword (w : string) : bool :=
  existsb (fun k => String.eqb w (QueryType_value k)) keywords.

(** The entries of the pattern table that match a query, in table
    order. *)
Definition matches (query : string) (entry : string * regex) : bool :=
  search (snd entry) query.

Definition matching (query : string) : list (string * regex) :=
  filter (matches query) RiskChecker.dangerous_patterns.

Definition weight_if (c : bool) (w : Q) : Q := if c then w else 0.

(** What the heuristics other than the dangerous patterns add to the
    score: steps 3 and 4 of the engine's algorithm. *)
Definition other_weights (query : string) : Q :=
  (weight_if (RiskChecker._is_data_modification_query query) 15
   + weight_if (RiskChecker._is_schema_change_query query) 25
   + weight_if (RiskChecker._has_missing_where_clause query) 20
   + weight_if (RiskChecker._has_wildcard_select query) 10
   + weight_if (RiskChecker._contains_system_commands query) 40
   + RiskChecker._calculate_complexity_score query * 5)%Q.

(** The level as a function of the score, by the thresholds of the
    specification. *)
Definition level_of_score (score : Q) : RiskLevel :=
  if Qle_bool 90 score then CRITICAL
  else if Qle_bool 70 score then HIGH
  else if Qle_bool 40 score then MEDIUM
  else LOW.

(** The recommendation in the words of the specification: below
    MEDIUM, the first dangerous-operation name if there is one. *)
Definition recommendation_as_specified (level : RiskLevel)
    (dangerous warnings : list string) : string :=
  match level with
  | CRITICAL => "Query blocked: Critical risk level"
  | HIGH => "High risk query"
  | MEDIUM => "Medium risk query"
  | LOW =>
      match dangerous, warnings with
      | name :: _, _ => name
      | [], w :: _ => w
      | [], [] => "Query appears safe"
      end
  end.

(** The recommendation the code builds below MEDIUM when there are
    dangerous operations: a fixed prefix and all the names. *)
Definition recommendation_as_built (level : RiskLevel)
    (dangerous warnings : list string) : string :=
  match level with
  | CRITICAL => "Query blocked: Critical risk level"
  | HIGH => "High risk query"
  | MEDIUM => "Medium risk query"
  | LOW =>
      match dangerous, warnings with
      | _ :: _, _ => "Dangerous operations: " ++ join ", " dangerous
      | [], w :: _ => w
      | [], [] => "Query appears safe"
      end
  end.

(** Two descriptors agree on the identity fields. *)
Definition same_identity (c1 c2 : DatabaseConnection) : Prop :=
  database_type c1 = database_type c2 /\ host c1 = host c2
  /\ port c1 = port c2 /\ database c1 = database c2
  /\ username c1 = username c2.

Fixpoint colon_free (s : string) : bool :=
  match s with
  | EmptyString => true
  | String c s' => negb (Ascii.eqb c ":") && colon_free s'
  end.

(** How often a method was invoked on a connector. *)
Definition is_close_of (o : nat) (c : DbTool.call) : bool :=
  match c with
  | DbTool.Call o' DbTool.m_close => Nat.eqb o o'
  | _ => false
  end.

Definition is_connect (c : DbTool.call) : bool :=
  match c with DbTool.Call _ DbTool.m_connect => true | _ => false end.

Definition is_execute (c : DbTool.call) : bool :=
  match c with
  | DbTool.Call _ (DbTool.m_execute_query _) => true
  | _ => false
  end.

Definition count (p : DbTool.call -> bool) (l : list DbTool.call) : nat :=
  List.length (filter p l).

(** The cache is well formed: every cached connector was allocated
    before, and no two entries hold the same object. *)
Definition wf {E : Type} (w : @DbTool.World E) : Prop :=
  Forall (fun kv => DbTool.oid (snd kv) < DbTool.next_oid w)
         (DbTool._connectors w)
  /\ NoDup (map (fun kv => DbTool.oid (snd kv)) (DbTool._connectors w)).

Definition nonempty (s : string) : Prop := s <> "".

End Spec.

(* ===================================================================== *)
(** * Concrete inputs *)
(* ===================================================================== *)

Module Examples.
Import Models Py DbTool.
Definition descriptor (t : DatabaseType) (h : string) (p : Z)
    (db user pw : string) : DatabaseConnection :=
  {| host := h; port := p; database := db; username := user;
     password := pw; database_type := t; ssl_mode := None;
     connection_timeout := 30; pool_size := 5 |}.

Definition orders : DatabaseConnection :=
  descriptor POSTGRESQL "db.internal" 5432 "orders" "app" "s3cret".

(** [orders] after a password rotation. *)
Definition orders_rotated : DatabaseConnection :=
  descriptor POSTGRESQL "db.internal" 5432 "orders" "app" "rotated".

(** [orders] on another port. *)
Definition orders_replica : DatabaseConnection :=
  descriptor POSTGRESQL "db.internal" 5433 "orders" "app" "s3cret".

(** Two descriptors that differ in [database] and in [username]. *)
Definition sales_eu : DatabaseConnection :=
  descriptor MYSQL "db.internal" 3306 "sales:eu" "app" "pw".
Definition sales : DatabaseConnection :=
  descriptor MYSQL "db.internal" 3306 "sales" "eu:app" "pw".

(** A backend the connector table does not know. *)
Definition local_file : DatabaseConnection :=
  descriptor SQLITE "localhost" 0 "app.db" "app" "".

Definition ask (text : string) (c : DatabaseConnection) : DatabaseQuery :=
  {| query := text; parameters := None; database_connection := c;
     timeout := 30; max_rows := None |}.

Definition drop_users : DatabaseQuery := ask "DROP TABLE users" orders.

Definition select_local : DatabaseQuery := ask "SELECT 1" local_file.

(** A driver that has lost the native connection with handle 0. *)
Definition lost_first : Environment stub_state := stub (Nat.eqb 0).
Definition healthy : Environment stub_state := stub (fun _ => false).

Local Open Scope py_scope.
(** A tool that has served [orders] and then [orders_replica]. *)
Definition two_cached (env : Environment stub_state) : @World stub_state :=
  after (@test_connection _ env orders ;;
         @test_connection _ env orders_replica)
        (init stub0).
End Examples.

(* ===================================================================== *)
(** * The schema readers and the tool server: [src/core/server.py] *)
(* ===================================================================== *)

Module Service.
Import Text Models Py DbTool.
Local Open Scope py_scope.

(** [DatabaseSchema]; [meta] is the type of one metadata mapping. *)
Record DatabaseSchema (meta : Type) : Type := {
  tables : list meta;
  views : list meta;
  procedures : list meta;
  functions : list meta
}.

(** The driver work of the schema readers: the closures [_get_schema]
    and [_list] of a connector, which query the catalogue of the
    backend. *)
Class SchemaDriver (E : Type) : Type := {
  meta : Type;
  driver_schema : nat -> E -> outcome (DatabaseSchema meta) * E;
  driver_tables : nat -> option string -> E -> outcome (list string) * E
}.

Section Readers.
Context {E : Type} {environment : Environment E} {catalogue : SchemaDriver E}.

(** [get_schema] and [list_tables] of a connector.  They are not
    entered in the record of calls, which covers the five methods of
    [method]. *)
Definition c_get_schema (c : Connector) : M World (DatabaseSchema meta) :=
  if negb (_is_connected c) then raise (mk_exn RuntimeError "Not connected")
  else match _connection c with
       | Some h => env (driver_schema h)
       | None => no_handle
       end.

Definition c_list_tables (c : Connector) (schema : option string)
    : M World (list string) :=
  if negb (_is_connected c) then raise (mk_exn RuntimeError "Not connected")
  else match _connection c with
       | Some h => env (driver_tables h schema)
       | None => no_handle
       end.

(** [DatabaseTool.get_database_schema] and [DatabaseTool.list_tables]. *)
Definition get_database_schema (connection : DatabaseConnection)
    : M World (DatabaseSchema meta) :=
  c <- _get_connector connection ;;
  c_get_schema c.

Definition list_tables (connection : DatabaseConnection)
    (schema : option string) : M World (list string) :=
  c <- _get_connector connection ;;
  c_list_tables c schema.

End Readers.

(** [DatabaseType(value)]: the member with that value. *)
Definition DatabaseType_of (value : string) : outcome DatabaseType :=
  if String.eqb value "postgresql" then Return POSTGRESQL
  else if String.eqb value "mysql" then Return MYSQL
  else if String.eqb value "oracle" then Return ORACLE
  else if String.eqb value "sqlite" then Return SQLITE
  else Raise {| e_class := ValueError;
                e_str := "'" ++ value ++ "' is not a valid DatabaseType" |}.

(** The arguments every database tool takes. *)
Record target : Type := {
  t_database_type : string;
  t_host : string;
  t_port : Z;
  t_database : string;
  t_username : string;
  t_password : string;
  t_ssl_mode : option string
}.

Section Server.
Context {E : Type} {environment : Environment E} {catalogue : SchemaDriver E}
        {parser : SqlParse}.

Definition _build_connection (t : target) : M (@World E) DatabaseConnection :=
  match DatabaseType_of (t_database_type t) with
  | Return dt =>
      ret {| host := t_host t; port := t_port t; database := t_database t;
             username := t_username t; password := t_password t;
             database_type := dt; ssl_mode := t_ssl_mode t;
             connection_timeout := 30; pool_size := 5 |}
  | Raise e => raise e
  end.

Definition db_test_connection (t : target) : M World bool :=
  conn <- _build_connection t ;;
  test_connection conn.

Definition db_validate (text : string) (t : target)
    : M World QueryRiskAssessment :=
  conn <- _build_connection t ;;
  validate_query text conn.

Definition db_schema (t : target) : M World (DatabaseSchema meta) :=
  conn <- _build_connection t ;;
  get_database_schema conn.

Definition db_list_tables (t : target) (schema : option string)
    : M World (list string) :=
  conn <- _build_connection t ;;
  list_tables conn schema.

(** [db_query] calls [execute_query] with its default,
    [validate_safety=True]. *)
Definition db_query (text : string) (t : target) (params : parameters_t)
    (timeout : Z) (max_rows : option Z) : M World QueryResult :=
  conn <- _build_connection t ;;
  let dq := {| query := text; parameters := params;
               database_connection := conn; timeout := timeout;
               max_rows := max_rows |} in
  execute_query dq true.

(** [lifespan]: serve with a tool, and close all connections when
    serving ends, however it ends. *)
Definition lifespan {A} (serve : M (@World E) A) : M World A :=
  try_finally serve close_all_connections.

End Server.
End Service.

(* ===================================================================== *)
(** * The agent: [src/ai/bedrock_agent.py] *)
(* ===================================================================== *)

Module Agent.
Import Text Py.

(** The reply of the language model to a prompt: the part of
    [invoke_bedrock] that calls the model, which may raise. *)
Class LanguageModel : Type := invoke_model : string -> outcome string.

(** [str.lower], character by character, on code points below 256. *)
Definition lower_char (c : ascii) : ascii :=
  if between 65 90 c || between 192 214 c || between 216 222 c
  then shift 32 false c else c.

Fixpoint lower (s : string) : string :=
  match s with
  | EmptyString => EmptyString
  | String c s' => String (lower_char c) (lower s')
  end.

(** [sub in s]. *)
Fixpoint contains (s sub : string) : bool :=
  String.prefix sub s
  || match s with
     | String _ s' => contains s' sub
     | EmptyString => false
     end.

Definition _is_sql (q : string) : bool :=
  let s := lower (strip q) in
  startswith s "select" || startswith s "insert" || startswith s "update"
  || startswith s "delete" || startswith s "create" || startswith s "alter"
  || startswith s "drop".

(** The connection settings of the command line, [ns]. *)
Record namespace : Type := {
  db_type : string;
  db_host : string;
  db_port : Z;
  db_name : string;
  db_user : string;
  db_pass : string;
  ssl_mode : option string
}.

(** The arguments of a [db_query] call. *)
Record query_payload : Type := {
  p_query : string;
  p_target : Service.target;
  p_parameters : Models.parameters_t
}.

Definition target_of (ns : namespace) : Service.target :=
  {| Service.t_database_type := db_type ns; Service.t_host := db_host ns;
     Service.t_port := db_port ns; Service.t_database := db_name ns;
     Service.t_username := db_user ns; Service.t_password := db_pass ns;
     Service.t_ssl_mode := ssl_mode ns |}.

Section Routing.
Context {model : LanguageModel}.

(** [BedrockMCPAgent.generate_sql]; [dry] is [self._dry], and
    [invoke_model] stands for [invoke_bedrock] outside a dry run. *)
Definition generate_sql (dry : bool) (user_input : string)
    (tables : list string) : outcome string :=
  if dry then
    match find (fun name => contains (lower user_input) (lower name)) tables
    with
    | Some (String c t) =>
        Return ("SELECT COUNT(*) AS count FROM " ++ String c t)
    | _ => Return "SELECT 1"
    end
  else
    let prompt :=
      "Return a single valid SQL SELECT for the following request. "
      ++ "Use only tables from this list and prefer simple aggregates if counting is requested. "
      ++ "Return only the SQL string. "
      ++ "Tables: " ++ join ", " tables ++ ". "
      ++ "Request: " ++ user_input in
    match invoke_model prompt with
    | Return out => Return (strip out)
    | Raise e => Raise e
    end.

(** [route_intent_sql].  [listing] is the outcome of the
    [db_list_tables] call of the session: the table list of its
    unwrapped result when that is a mapping with such a list. *)
Definition route_intent_sql (dry : bool)
    (listing : outcome (option (list string))) (ns : namespace)
    (query : string) : outcome (string * query_payload) :=
  let tables :=
    match listing with
    | Return (Some ts) => ts
    | _ => []
    end in
  match generate_sql dry query tables with
  | Return sql =>
      let sql :=
        if negb (startswith (strip (lower sql)) "select") then "SELECT 1"
        else sql in
      Return ("db_query",
              {| p_query := sql; p_target := target_of ns;
                 p_parameters := None |})
  | Raise e => Raise e
  end.

End Routing.
End Agent.

(* ===================================================================== *)
(** * Notions in which the further properties are stated *)
(* ===================================================================== *)

Module Notions.
Import Text Re Models RiskChecker Py.

(** ** Letter case and padding *)

Fixpoint casefold (s : string) : string :=
  match s with
  | EmptyString => EmptyString
  | String c s' => String (fold_case c) (casefold s')
  end.

(** Two texts that differ in the case of their letters only. *)
Definition same_letters (s t : string) : Prop := casefold s = casefold t.

Definition fold_prev (p : option ascii) : option ascii := option_map fold_case p.

(** Two continuations that agree up to case folding. *)
Definition agree (k k' : cont) : Prop :=
  forall p t, k' (fold_prev p) (casefold t) = option_map casefold (k p t).

(** A text of white space only. *)
Fixpoint blank (s : string) : bool :=
  match s with
  | EmptyString => true
  | String c s' => isspace c && blank s'
  end.

Fixpoint all_capital (s : string) : bool :=
  match s with
  | EmptyString => true
  | String c s' => between 65 90 c && all_capital s'
  end.

(** ** Assessments *)

Definition rank (l : RiskLevel) : nat :=
  match l with LOW => 0 | MEDIUM => 1 | HIGH => 2 | CRITICAL => 3 end.

(** The names of the pattern table. *)
Definition table_names : list string := map fst dangerous_patterns.

(** The warning the loop over the pattern table adds for an entry. *)
Definition warning_of (entry : string * regex) : string :=
  "Dangerous operation detected: " ++ fst entry.

Definition note (c : bool) (msg : string) : list string :=
  if c then [msg] else [].

(** ** Results *)

(** The shape of a result of [execute_query] for the query text [text]. *)
Definition well_shaped (text : string) (r : QueryResult) : Prop :=
  if success r then
    error_message r = None
    /\ query_type r = Some (Base._parse_query_type text)
    /\ match Base._parse_query_type text with
       | SELECT =>
           exists rows, data r = Some rows
                        /\ row_count r = Z.of_nat (List.length rows)
                        /\ columns r <> None
       | _ => data r = None /\ columns r = None
       end
  else
    data r = None /\ row_count r = 0%Z /\ columns r = None
    /\ query_type r = Some SELECT /\ error_message r <> None.

(** What a connector method raises on a connector that is not
    connected. *)
Definition not_connected : exn :=
  {| e_class := RuntimeError; e_str := "Not connected" |}.

(** What the resolution raises for a backend the connector table does
    not know. *)
Definition unsupported (d : DatabaseConnection) : exn :=
  DbTool.mk_exn ValueError
    ("Unsupported database type: "
     ++ DbTool.format_database_type (database_type d)).

End Notions.

(* ===================================================================== *)
(** * The cache invariant and the steps of the multiplexer *)
(* ===================================================================== *)

Module Inv.
Import Models Py DbTool.

Section Defs.
Context {E : Type}.

(** What holds of every cache entry: it is filed under the key of its
    own descriptor, its backend is one the connector table knows, it is
    connected with a native handle, and it was allocated before. *)
Definition entry_ok (next : nat) (kv : string * Connector) : Prop :=
  fst kv = _conn_key (connection (snd kv))
  /\ _connector_types (database_type (connection (snd kv))) <> None
  /\ _is_connected (snd kv) = true
  /\ (exists h, _connection (snd kv) = Some h)
  /\ oid (snd kv) < next.

Definition cache_ok (w : @World E) : Prop :=
  Forall (entry_ok (next_oid w)) (_connectors w)
  /\ NoDup (map fst (_connectors w))
  /\ NoDup (map (fun kv => oid (snd kv)) (_connectors w)).

(** Every run of [m] relates the state before to the state after by
    [R], whether it returns or raises. *)
Definition steps {A} (R : @World E -> @World E -> Prop) (m : M World A)
    : Prop :=
  forall w, R w (snd (m w)).

(** The cache and the allocator are untouched. *)
Definition quiet_step (w w' : @World E) : Prop :=
  _connectors w' = _connectors w /\ next_oid w' = next_oid w.

(** The invariant carries over. *)
Definition ok_step (w w' : @World E) : Prop := cache_ok w -> cache_ok w'.

(** The cache is the same, or the key of the descriptor was absent and
    an entry for it was appended. *)
Definition own_entry_step (d : DatabaseConnection) (w w' : @World E) : Prop :=
  _connectors w' = _connectors w
  \/ (dict_get (_conn_key d) (_connectors w) = None
      /\ exists c, connection c = d
                   /\ _connectors w' = (_connectors w ++ [(_conn_key d, c)])%list).

(** Nothing but the environment changes. *)
Definition silent_step (w w' : @World E) : Prop :=
  _connectors w' = _connectors w /\ next_oid w' = next_oid w
  /\ calls w' = calls w.

(** A method of a connector: one entry in the record of calls, then
    only the environment changes. *)
Definition logged (c : Connector) (m : method) (w w' : @World E) : Prop :=
  _connectors w' = _connectors w /\ next_oid w' = next_oid w
  /\ calls w' = (calls w ++ [Call (oid c) m])%list.

(** When [m] returns, the value and the state satisfy [Q]. *)
Definition returns {A} (Q : A -> @World E -> Prop) (m : M World A) : Prop :=
  forall w, match m w with
            | (Return a, w') => Q a w'
            | (Raise _, _) => True
            end.
End Defs.
End Inv.

(* ===================================================================== *)
(** * A resolution that is interleaved with another *)
(* ===================================================================== *)

Module Interleaving.
Import Models Py DbTool.
Local Open Scope py_scope.

Section Halves.
Context {E : Type} {environment : Environment E}.

(** The event loop runs a task until it awaits a future.  The one
    such point of [_get_connector] is [await conn.connect()]: the
    connect of the driver runs in the worker pool and the task waits
    for it, and meanwhile other tasks run.

    [resolve_begin] is [_get_connector] up to the answer of the
    driver: the lookup in the cache ([inl], a hit, and the resolution
    is done) and on a miss the import, the construction and the
    connect ([inr], a connector that is connected and not yet
    cached).  [resolve_end] is the rest, which runs when the task is
    resumed: the assignment [self._connectors[key] = conn] and the
    return.  The work of the driver for a waiting task is placed
    before the steps of the task that runs next, one of the orders
    the worker pool allows. *)
Definition resolve_begin (connection : DatabaseConnection)
    : M World (Connector + Connector) :=
  let key := _conn_key connection in
  conn <- gets (fun w => dict_get key (_connectors w)) ;;
  match conn with
  | Some c => ret (inl c)
  | None =>
      match _connector_types (database_type connection) with
      | None =>
          raise (mk_exn ValueError
                   ("Unsupported database type: "
                    ++ format_database_type (database_type connection)))
      | Some cls_path =>
          env (import_class cls_path) ;;
          c <- construct connection ;;
          c <- connect c ;;
          ret (inr c)
      end
  end.

Definition resolve_end (connection : DatabaseConnection) (c : Connector)
    : M (@World E) Connector :=
  modify (with_connectors (dict_set (_conn_key connection) c)) ;;
  ret c.

(** The two halves with no other task in between. *)
Definition resolve (connection : DatabaseConnection) : M World Connector :=
  r <- resolve_begin connection ;;
  match r with
  | inl c => ret c
  | inr c => resolve_end connection c
  end.

End Halves.
End Interleaving.

(* ===================================================================== *)
(** * Further concrete inputs *)
(* ===================================================================== *)

Module MoreExamples.
Import Models Py DbTool Service Agent Examples.

(** A catalogue without relations. *)
Definition empty_catalogue : SchemaDriver stub_state :=
  {| meta := string;
     driver_schema := fun _ e =>
       (Return {| tables := []; views := []; procedures := [];
                  functions := [] |}, e);
     driver_tables := fun _ _ e => (Return [], e) |}.

(** A language model with one reply. *)
Definition canned (reply : string) : LanguageModel :=
  fun _ => Return reply.

(** The tool arguments and the command line that describe [orders]. *)
Definition orders_target : target :=
  {| t_database_type := "postgresql"; t_host := "db.internal";
     t_port := 5432; t_database := "orders"; t_username := "app";
     t_password := "s3cret"; t_ssl_mode := None |}.

Definition orders_cli : namespace :=
  {| db_type := "postgresql"; db_host := "db.internal"; db_port := 5432;
     db_name := "orders"; db_user := "app"; db_pass := "s3cret";
     ssl_mode := None |}.

(** A tool that has served [orders]. *)
Definition one_cached : @World stub_state :=
  after (@test_connection _ healthy orders) (init stub0).

(** A connector for [orders] before it connects, and one that holds
    the native handle 0. *)
Definition fresh_connector : Connector :=
  {| oid := 0; connection := orders; _is_connected := false;
     _connection := None |}.

Definition live_connector : Connector :=
  {| oid := 0; connection := orders; _is_connected := true;
     _connection := Some 0 |}.

(** A second connector for [orders], with the native handle 1. *)
Definition second_connector : Connector :=
  {| oid := 1; connection := orders; _is_connected := true;
     _connection := Some 1 |}.

End MoreExamples.

(* ===================================================================== *)
(** * Properties of the risk checker *)
(* ===================================================================== *)

Module RiskFacts.
Import Text Re Models RiskChecker Spec.
Local Open Scope Q_scope.

Lemma inject_succ (n : nat) :
  inject_Z (Z.of_nat (S n)) == inject_Z (Z.of_nat n) + 1.
Proof.
  rewrite Nat2Z.inj_succ. unfold Z.succ. rewrite inject_Z_plus. reflexivity.
Qed.

Lemma step_fields (q : string) (l : locals) (e : string * regex) :
  l_dangerous (dangerous_step q l e)
  = (l_dangerous l ++ (if matches q e then [fst e] else []))%list
  /\ l_score (dangerous_step q l e)
     == l_score l + (if matches q e then 30 else 0)
  /\ l_safe (dangerous_step q l e) = l_safe l && negb (matches q e).
Proof.
  destruct e as [name pat]. unfold dangerous_step, matches. cbn [snd fst].
  destruct (search pat q); cbn [l_dangerous l_score l_safe].
  - rewrite andb_false_r. unfold w_dangerous_operation.
    repeat split; reflexivity.
  - rewrite app_nil_r, andb_true_r. repeat split; try reflexivity. lra.
Qed.

(** The loop over the pattern table, from any starting locals. *)
Lemma loop_from (q : string) (pats : list (string * regex)) :
  forall l,
    l_dangerous (fold_left (dangerous_step q) pats l)
    = (l_dangerous l ++ map fst (filter (matches q) pats))%list
    /\ l_score (fold_left (dangerous_step q) pats l)
       == l_score l
          + 30 * inject_Z (Z.of_nat (List.length (filter (matches q) pats)))
    /\ l_safe (fold_left (dangerous_step q) pats l)
       = l_safe l && forallb (fun e => negb (matches q e)) pats.
Proof.
  induction pats as [|e rest IH]; intros l.
  - cbn [fold_left filter map List.length forallb].
    rewrite app_nil_r, andb_true_r. repeat split; try reflexivity.
    change (inject_Z (Z.of_nat 0)) with 0. lra.
  - cbn [fold_left filter forallb].
    destruct (IH (dangerous_step q l e)) as (Hd & Hs & Hf).
    destruct (step_fields q l e) as (Sd & Ss & Sf).
    rewrite Hd, Hf, Sd, Sf, <- app_assoc, andb_assoc.
    split; [|split; [|reflexivity]].
    + destruct (matches q e); reflexivity.
    + destruct (matches q e); cbn [List.length].
      * pose proof (inject_succ (List.length (filter (matches q) rest))).
        lra.
      * lra.
Qed.

Lemma loop_dangerous (q : string) :
  l_dangerous (dangerous_loop q) = map fst (matching q).
Proof. exact (proj1 (loop_from q dangerous_patterns locals0)). Qed.

Lemma loop_score (q : string) :
  l_score (dangerous_loop q)
  == 30 * inject_Z (Z.of_nat (List.length (matching q))).
Proof.
  destruct (loop_from q dangerous_patterns locals0) as (_ & H & _).
  unfold dangerous_loop, matching. rewrite H. cbn [l_score locals0]. lra.
Qed.

Lemma loop_safe (q : string) :
  l_safe (dangerous_loop q)
  = forallb (fun e => negb (matches q e)) dangerous_patterns.
Proof.
  destruct (loop_from q dangerous_patterns locals0) as (_ & _ & H).
  exact H.
Qed.

Lemma forallb_no_match (q : string) (pats : list (string * regex)) :
  forallb (fun e => negb (matches q e)) pats = true
  <-> filter (matches q) pats = [].
Proof.
  induction pats as [|e rest IH]; cbn; [tauto|].
  destruct (matches q e); cbn; [split; discriminate | exact IH].
Qed.

(** The statements after the loop leave [dangerous] alone, add their
    weights and can only clear [safe]. *)
Lemma heuristics_spec (q : string) (l : locals) :
  l_dangerous (heuristics q l) = l_dangerous l
  /\ l_score (heuristics q l)
     == l_score l + (other_weights q
                     - _calculate_complexity_score q * 5)
  /\ l_safe (heuristics q l)
     = l_safe l && negb (_has_missing_where_clause q)
       && negb (_contains_system_commands q).
Proof.
  unfold heuristics, other_weights, when, fire, weight_if.
  destruct (_is_data_modification_query q), (_is_schema_change_query q),
    (_has_missing_where_clause q), (_has_wildcard_select q),
    (_contains_system_commands q);
    cbn [l_dangerous l_score l_safe];
    unfold w_data_modification, w_schema_change, w_no_where_clause,
      w_wildcard_select, w_system_command;
    rewrite ?andb_true_r, ?andb_false_r;
    (split; [reflexivity | split; [lra | reflexivity]]).
Qed.

Lemma complexity_range (q : string) :
  0 <= _calculate_complexity_score q <= 1.
Proof.
  unfold _calculate_complexity_score.
  set (total := fold_right Nat.add 0%nat _).
  split.
  - apply Q.min_glb; [|lra].
    assert (0 <= inject_Z (Z.of_nat total)).
    { rewrite <- (Zle_Qle 0). lia. }
    apply Qle_shift_div_l; lra.
  - apply Q.le_min_r.
Qed.

Lemma other_weights_nonneg (q : string) : 0 <= other_weights q.
Proof.
  pose proof (complexity_range q) as [H _].
  unfold other_weights, weight_if.
  destruct (_is_data_modification_query q), (_is_schema_change_query q),
    (_has_missing_where_clause q), (_has_wildcard_select q),
    (_contains_system_commands q); lra.
Qed.

Lemma level_agrees (s : Q) : _determine_risk_level s = level_of_score s.
Proof. reflexivity. Qed.

Lemma Qle_bool_false (x y : Q) : Qle_bool x y = false <-> y < x.
Proof.
  split; intros H.
  - apply Qnot_le_lt. intros Hle. apply Qle_bool_iff in Hle. congruence.
  - destruct (Qle_bool x y) eqn:E; [|reflexivity].
    apply Qle_bool_iff in E. lra.
Qed.

Section Assessment.
Context {parser : SqlParse}.

(** The score of a parsed query before and after the clamp. *)
Lemma parsed_score (q : string) :
  sqlparse_parse q <> 0%nat ->
  risk_score (assess_query_risk q)
  == Qmin (30 * inject_Z (Z.of_nat (List.length (matching q)))
           + other_weights q) 100.
Proof.
  intros Hp. unfold assess_query_risk.
  destruct (sqlparse_parse q) as [|n]; [congruence|]. cbn [risk_score].
  destruct (heuristics_spec q (dangerous_loop q)) as (_ & Hs & _).
  pose proof (loop_score q) as Hl.
  unfold max_risk_score, w_complex_query.
  apply Q.min_compat; [|reflexivity].
  rewrite Hs, Hl. ring.
Qed.

Lemma parsed_fields (q : string) :
  sqlparse_parse q <> 0%nat ->
  dangerous_operations (assess_query_risk q) = map fst (matching q)
  /\ is_safe (assess_query_risk q)
     = match matching q with [] => true | _ => false end
       && negb (_has_missing_where_clause q)
       && negb (_contains_system_commands q)
       && negb (Qle_bool 70 (risk_score (assess_query_risk q)))
  /\ risk_level (assess_query_risk q)
     = level_of_score (risk_score (assess_query_risk q)).
Proof.
  intros Hp. unfold assess_query_risk.
  destruct (sqlparse_parse q) as [|n]; [congruence|].
  cbn [dangerous_operations is_safe risk_level risk_score].
  destruct (heuristics_spec q (dangerous_loop q)) as (Hd & _ & Hf).
  rewrite Hd, Hf, loop_dangerous, loop_safe.
  repeat split.
  f_equal. f_equal. f_equal.
  unfold matching.
  destruct (filter (matches q) dangerous_patterns) eqn:E.
  - now apply forallb_no_match.
  - destruct (forallb _ _) eqn:F; [|reflexivity].
    apply forallb_no_match in F. congruence.
Qed.

Lemma score_range (q : string) :
  0 <= risk_score (assess_query_risk q) <= 100.
Proof.
  destruct (Nat.eq_dec (sqlparse_parse q) 0) as [Hz|Hp].
  - unfold assess_query_risk. rewrite Hz. cbn [risk_score]. lra.
  - rewrite (parsed_score q Hp).
    pose proof (other_weights_nonneg q).
    assert (0 <= inject_Z (Z.of_nat (List.length (matching q)))).
    { rewrite <- (Zle_Qle 0). lia. }
    split; [apply Q.min_glb; lra | apply Q.le_min_r].
Qed.

(** C5. For every query text the score of the assessment lies in
    [0,100] and the level is the function of the score given by the
    thresholds: at least 90 is CRITICAL, else at least 70 is HIGH,
    else at least 40 is MEDIUM, else LOW. *)
Theorem score_in_range_and_level (q : string) :
  0 <= risk_score (assess_query_risk q)
  /\ risk_score (assess_query_risk q) <= 100
  /\ risk_level (assess_query_risk q)
     = (if Qle_bool 90 (risk_score (assess_query_risk q)) then CRITICAL
        else if Qle_bool 70 (risk_score (assess_query_risk q)) then HIGH
        else if Qle_bool 40 (risk_score (assess_query_risk q)) then MEDIUM
        else LOW).
Proof.
  destruct (score_range q) as [H0 H1]. split; [exact H0|split; [exact H1|]].
  destruct (Nat.eq_dec (sqlparse_parse q) 0) as [Hz|Hp].
  - unfold assess_query_risk. rewrite Hz. reflexivity.
  - exact (proj2 (proj2 (parsed_fields q Hp))).
Qed.

(** C4. For a parseable query that matches at least one of the ten
    dangerous patterns, [is_safe] is false, the name of every
    matching pattern is in [dangerous_operations] (which lists
    exactly the matching names, in table order), and every match
    adds 30 to the score: the score is 30 per match plus the other
    heuristics' weights, clamped at 100. *)
Theorem dangerous_match_is_unsafe (q : string) :
  sqlparse_parse q <> 0%nat ->
  matching q <> [] ->
  is_safe (assess_query_risk q) = false
  /\ (forall name pattern,
        In (name, pattern) dangerous_patterns ->
        search pattern q = true ->
        In name (dangerous_operations (assess_query_risk q)))
  /\ dangerous_operations (assess_query_risk q) = map fst (matching q)
  /\ risk_score (assess_query_risk q)
     == Qmin (30 * inject_Z (Z.of_nat (List.length (matching q)))
              + other_weights q) 100
  /\ 0 <= other_weights q.
Proof.
  intros Hp Hm.
  destruct (parsed_fields q Hp) as (Hd & Hs & _).
  split; [|split; [|split; [exact Hd|split]]].
  - rewrite Hs. destruct (matching q); [congruence|reflexivity].
  - intros name pattern Hin Hsearch. rewrite Hd.
    apply (in_map fst _ (name, pattern)).
    apply filter_In. split; [exact Hin|exact Hsearch].
  - exact (parsed_score q Hp).
  - exact (other_weights_nonneg q).
Qed.

(** C10. An assessment with [is_safe = true] has no dangerous
    operations, a score strictly below 70 and a level of LOW or
    MEDIUM. *)
Theorem safe_means_harmless (q : string) :
  is_safe (assess_query_risk q) = true ->
  dangerous_operations (assess_query_risk q) = []
  /\ risk_score (assess_query_risk q) < 70
  /\ (risk_level (assess_query_risk q) = LOW
      \/ risk_level (assess_query_risk q) = MEDIUM).
Proof.
  intros Hsafe.
  destruct (Nat.eq_dec (sqlparse_parse q) 0) as [Hz|Hp].
  - unfold assess_query_risk in Hsafe. rewrite Hz in Hsafe. discriminate.
  - destruct (parsed_fields q Hp) as (Hd & Hs & Hl).
    rewrite Hs in Hsafe.
    apply andb_true_iff in Hsafe as [Hsafe Hlt].
    apply andb_true_iff in Hsafe as [Hsafe _].
    apply andb_true_iff in Hsafe as [Hsafe _].
    apply negb_true_iff in Hlt.
    assert (Hlt' := proj1 (Qle_bool_false _ _) Hlt).
    split; [|split; [exact Hlt'|]].
    + rewrite Hd. destruct (matching q); [reflexivity|discriminate].
    + rewrite Hl. unfold level_of_score. rewrite Hlt.
      assert (Qle_bool 90 (risk_score (assess_query_risk q)) = false)
        as -> by (apply Qle_bool_false; lra).
      destruct (Qle_bool 40 _); [right|left]; reflexivity.
Qed.

(** C7, amended. For a parseable query the recommendation is the
    fixed text of the level for CRITICAL, HIGH and MEDIUM; below
    that it is "Dangerous operations: " followed by all the
    dangerous-operation names joined by ", " when there is one,
    else the first warning when there is one, else
    "Query appears safe". *)
Theorem recommendation_of_parsed (q : string) :
  sqlparse_parse q <> 0%nat ->
  recommendation (assess_query_risk q)
  = Some (recommendation_as_built
            (risk_level (assess_query_risk q))
            (dangerous_operations (assess_query_risk q))
            (warnings (assess_query_risk q))).
Proof.
  intros Hp. unfold assess_query_risk.
  destruct (sqlparse_parse q) as [|n]; [congruence|]. reflexivity.
Qed.

(** C6. The assessment of "DELETE FROM users" has score 65: the
    [delete_all] pattern alone matches (30), the statement is a
    data modification (15) and lacks a WHERE clause (20); the
    level is MEDIUM and [is_safe] is false. *)
Theorem delete_from_users :
  sqlparse_parse "DELETE FROM users" <> 0%nat ->
  let a := assess_query_risk "DELETE FROM users" in
  risk_score a == 65
  /\ map fst (matching "DELETE FROM users") = ["delete_all"]
  /\ dangerous_operations a = ["delete_all"]
  /\ l_score (dangerous_loop "DELETE FROM users") == 30
  /\ _is_data_modification_query "DELETE FROM users" = true
  /\ _has_missing_where_clause "DELETE FROM users" = true
  /\ other_weights "DELETE FROM users" == 15 + 20
  /\ risk_level a = MEDIUM
  /\ is_safe a = false.
Proof.
  intros Hp a. subst a. unfold assess_query_risk.
  destruct (sqlparse_parse "DELETE FROM users") as [|n]; [congruence|].
  vm_compute. repeat split; reflexivity || discriminate.
Qed.
End Assessment.

Lemma delete_from_users_witness :
  @sqlparse_parse nonblank_parser "DELETE FROM users" <> 0%nat
  /\ risk_score (@assess_query_risk nonblank_parser "DELETE FROM users") == 65.
Proof.
  assert (H : @sqlparse_parse nonblank_parser "DELETE FROM users" <> 0%nat)
    by (vm_compute; discriminate).
  split; [exact H|].
  exact (proj1 (@delete_from_users nonblank_parser H)).
Defined.

(** C7 as stated fails: for "GRANT ALL ON t TO u" the level is LOW
    and the recommendation is not the first dangerous-operation
    name. *)
Lemma recommendation_not_first_name :
  let a := @assess_query_risk nonblank_parser "GRANT ALL ON t TO u" in
  @sqlparse_parse nonblank_parser "GRANT ALL ON t TO u" <> 0%nat
  /\ risk_level a = LOW
  /\ dangerous_operations a = ["grant_all"]
  /\ recommendation a = Some "Dangerous operations: grant_all"
  /\ recommendation a
     <> Some (recommendation_as_specified (risk_level a)
                (dangerous_operations a) (warnings a)).
Proof. vm_compute. repeat split; reflexivity || discriminate. Qed.

Lemma dangerous_match_is_unsafe_witness :
  is_safe (@assess_query_risk nonblank_parser "DROP TABLE users") = false.
Proof.
  refine (proj1 (@dangerous_match_is_unsafe nonblank_parser
                   "DROP TABLE users" _ _));
    vm_compute; discriminate.
Defined.

Lemma safe_means_harmless_witness :
  dangerous_operations (@assess_query_risk nonblank_parser "SELECT 1") = [].
Proof.
  refine (proj1 (@safe_means_harmless nonblank_parser "SELECT 1" _)).
  vm_compute. reflexivity.
Defined.

Lemma recommendation_of_parsed_witness :
  recommendation (@assess_query_risk nonblank_parser "GRANT ALL ON t TO u")
  = Some "Dangerous operations: grant_all".
Proof.
  refine (eq_trans
            (@recommendation_of_parsed nonblank_parser
               "GRANT ALL ON t TO u" _) _).
  - vm_compute. discriminate.
  - vm_compute. reflexivity.
Defined.

End RiskFacts.

(* ===================================================================== *)
(** * Properties of the query classifier *)
(* ===================================================================== *)

Module BaseFacts.
Import Text Models Base Spec.

Ltac split_ascii_dec :=
  repeat match goal with
         | H : context [ascii_dec ?x ?y] |- _ => destruct (ascii_dec x y)
         end.

Lemma one_keyword_prefix (u : string) (k1 k2 : QueryType) :
  startswith u (QueryType_value k1) = true ->
  startswith u (QueryType_value k2) = true -> k1 = k2.
Proof.
  unfold startswith. intros H1 H2.
  destruct u as [|a [|b u]]; [destruct k1; discriminate| |].
  - destruct k1; cbn [String.prefix QueryType_value] in H1;
      split_ascii_dec; discriminate.
  - destruct k1, k2; try reflexivity;
      cbn [String.prefix QueryType_value] in H1, H2; split_ascii_dec;
      try discriminate; congruence.
Qed.

Lemma classify_prefix (statement : string) (k : QueryType) :
  startswith (upper (strip statement)) (QueryType_value k) = true ->
  _parse_query_type statement = k.
Proof.
  intros H. unfold _parse_query_type.
  set (u := upper (strip statement)) in *.
  destruct (startswith u "SELECT") eqn:H1;
    [exact (one_keyword_prefix u SELECT k H1 H)|].
  destruct (startswith u "INSERT") eqn:H2;
    [exact (one_keyword_prefix u INSERT k H2 H)|].
  destruct (startswith u "UPDATE") eqn:H3;
    [exact (one_keyword_prefix u UPDATE k H3 H)|].
  destruct (startswith u "DELETE") eqn:H4;
    [exact (one_keyword_prefix u DELETE k H4 H)|].
  destruct (startswith u "CREATE") eqn:H5;
    [exact (one_keyword_prefix u CREATE k H5 H)|].
  destruct (startswith u "ALTER") eqn:H6;
    [exact (one_keyword_prefix u ALTER k H6 H)|].
  destruct (startswith u "DROP") eqn:H7;
    [exact (one_keyword_prefix u DROP k H7 H)|].
  destruct k; cbn in H; congruence.
Qed.

Lemma classify_default (statement : string) :
  (forall k, startswith (upper (strip statement)) (QueryType_value k) = false) ->
  _parse_query_type statement = SELECT.
Proof.
  intros H. unfold _parse_query_type.
  pose proof (H SELECT) as H1. pose proof (H INSERT) as H2.
  pose proof (H UPDATE) as H3. pose proof (H DELETE) as H4.
  pose proof (H CREATE) as H5. pose proof (H ALTER) as H6.
  pose proof (H DROP) as H7. cbn [QueryType_value] in *.
  now rewrite H1, H2, H3, H4, H5, H6, H7.
Qed.

Lemma first_word_prefix (t : string) :
  String.prefix (upper (first_word t)) (upper t) = true.
Proof.
  induction t as [|c t IH]; cbn; [reflexivity|].
  destruct (isword c); cbn [upper String.prefix]; [|reflexivity].
  destruct (ascii_dec (upper_char c) (upper_char c)); [exact IH|congruence].
Qed.

(** C8, amended. Classification goes by prefix: a statement whose
    trimmed, upper-cased text starts with one of the seven keywords
    has that keyword's kind, also when further word characters follow
    the keyword; a statement that starts with none of them is a
    SELECT.  In particular a statement whose leading keyword is one
    of the seven has that kind. *)
Theorem classification_by_prefix (statement : string) :
  (forall k,
      startswith (upper (strip statement)) (QueryType_value k) = true ->
      _parse_query_type statement = k)
  /\ ((forall k,
         startswith (upper (strip statement)) (QueryType_value k) = false) ->
      _parse_query_type statement = SELECT)
  /\ (forall k,
        leading_keyword statement = QueryType_value k ->
        _parse_query_type statement = k).
Proof.
  split; [exact (classify_prefix statement)|].
  split; [exact (classify_default statement)|].
  intros k Hk. apply classify_prefix. unfold startswith.
  rewrite <- Hk. apply first_word_prefix.
Qed.

Lemma classification_by_prefix_witness :
  _parse_query_type "  drop table t" = DROP
  /\ _parse_query_type "Insertion sort" = INSERT.
Proof.
  split.
  - apply (proj2 (proj2 (classification_by_prefix "  drop table t"))).
    vm_compute. reflexivity.
  - apply (proj1 (classification_by_prefix "Insertion sort")).
    vm_compute. reflexivity.
Defined.

(** C8 as stated fails: the leading keyword of "DROPS TABLE t" is
    DROPS, which is none of the seven, and the statement classifies
    as DROP. *)
Lemma unrecognized_keyword_not_select :
  leading_keyword "DROPS TABLE t" = "DROPS"
  /\ is_keyword (leading_keyword "DROPS TABLE t") = false
  /\ _parse_query_type "DROPS TABLE t" = DROP
  /\ _parse_query_type "DROPS TABLE t" <> SELECT.
Proof. vm_compute. repeat split; reflexivity || discriminate. Qed.

End BaseFacts.

(* ===================================================================== *)
(** * Properties of the multiplexer *)
(* ===================================================================== *)

Module ToolFacts.
Import Text Re Models RiskChecker Spec Py DbTool Examples.

Lemma step_warnings (q : string) (l : locals) (e : string * regex) :
  Forall nonempty (l_warnings l) ->
  Forall nonempty (l_warnings (dangerous_step q l e)).
Proof.
  intros H. destruct e as [name pat]. unfold dangerous_step.
  destruct (search pat q); [|exact H]. cbn [l_warnings].
  apply Forall_app. split; [exact H|].
  constructor; [discriminate|constructor].
Qed.

Lemma loop_warnings (q : string) (pats : list (string * regex)) :
  forall l, Forall nonempty (l_warnings l) ->
            Forall nonempty (l_warnings (fold_left (dangerous_step q) pats l)).
Proof.
  induction pats as [|e rest IH]; intros l H; cbn [fold_left].
  - exact H.
  - apply IH, step_warnings, H.
Qed.

Lemma fire_warnings (c : bool) (w : Q) (msg : string) (u : bool) (l : locals) :
  nonempty msg ->
  Forall nonempty (l_warnings l) ->
  Forall nonempty (l_warnings (when c (fire w msg u) l)).
Proof.
  intros Hm H. destruct c; [|exact H]. cbn [when fire l_warnings].
  apply Forall_app. split; [exact H|]. constructor; [exact Hm|constructor].
Qed.

Lemma heuristics_warnings (q : string) (l : locals) :
  Forall nonempty (l_warnings l) ->
  Forall nonempty (l_warnings (heuristics q l)).
Proof.
  intros H. unfold heuristics.
  repeat (apply fire_warnings; [discriminate|]). exact H.
Qed.

Lemma recommendation_nonempty (level : RiskLevel) (d ws : list string) :
  Forall nonempty ws -> nonempty (_recommendation level d ws).
Proof.
  intros H. destruct level; try discriminate. cbn [_recommendation].
  destruct d as [|x d]; [|discriminate].
  destruct ws as [|w0 ws]; [discriminate|]. now inversion H.
Qed.

Lemma assessment_recommends {parser : SqlParse} (q : string) :
  exists s, recommendation (assess_query_risk q) = Some s /\ nonempty s.
Proof.
  unfold assess_query_risk. destruct (sqlparse_parse q) as [|n].
  - eexists. split; [reflexivity|discriminate].
  - eexists. split; [reflexivity|]. apply recommendation_nonempty.
    apply heuristics_warnings, loop_warnings. constructor.
Qed.

Lemma or_default_some (s d : string) : nonempty s -> or_default (Some s) d = s.
Proof. destruct s; [intros H; now elim H|reflexivity]. Qed.

Section Boundary.
Context {E : Type} {environment : Environment E} {parser : SqlParse}.

(** C1. When [execute_query] runs with [validate_safety = true] and
    the assessment of the query is unsafe, it returns a result with
    [success = false] whose [error_message] is the assessment's
    recommendation; no connector is resolved, created or called: the
    cache and the record of connector calls are unchanged and the
    environment saw two clock reads only. *)
Theorem unsafe_query_is_blocked (q : DatabaseQuery) (w : World) :
  is_safe (assess_query_risk (query q)) = false ->
  exists r w',
    execute_query q true w = (Return r, w')
    /\ success r = false
    /\ error_message r = recommendation (assess_query_risk (query q))
    /\ _connectors w' = _connectors w
    /\ next_oid w' = next_oid w
    /\ calls w' = calls w
    /\ backend w' = snd (time_time (snd (time_time (backend w)))).
Proof.
  intros Hunsafe.
  destruct (assessment_recommends (query q)) as (s & Hs & Hne).
  unfold execute_query, execute_query_body, bind, try_except, now, ret.
  rewrite Hunsafe. cbn [negb].
  destruct (time_time (backend w)) as [t0 e0] eqn:T0. cbn [backend with_backend].
  destruct (time_time e0) as [t1 e1] eqn:T1.
  eexists. eexists. split; [reflexivity|].
  cbn. rewrite Hs, (or_default_some s _ Hne). repeat split.
  now rewrite T1.
Qed.

(** C2. In every state and for every input, [execute_query],
    [validate_query] and [test_connection] return and do not raise;
    when their [try] block raised [e], [execute_query] returns a
    result with [success = false] and [error_message = str(e)],
    [validate_query] an assessment with [is_safe = false], and
    [test_connection] returns [False]. *)
Theorem boundary_never_raises (w : World) :
  (forall q validate_safety, exists r w',
      execute_query q validate_safety w = (Return r, w')
      /\ forall e w1,
           execute_query_body (fst (time_time (backend w))) q validate_safety
             (with_backend (snd (time_time (backend w))) w) = (Raise e, w1) ->
           success r = false /\ error_message r = Some (e_str e))
  /\ (forall text c, exists a w',
        validate_query text c w = (Return a, w')
        /\ forall e w1,
             validate_query_body text c w = (Raise e, w1) ->
             is_safe a = false)
  /\ (forall c, exists ok w',
        test_connection c w = (Return ok, w')
        /\ forall e w1,
             test_connection_body c w = (Raise e, w1) -> ok = false).
Proof.
  split; [|split].
  - intros q vs. unfold execute_query, bind, now, try_except.
    destruct (time_time (backend w)) as [t0 e0]. cbn [fst snd].
    destruct (execute_query_body t0 q vs (with_backend e0 w))
      as [[r|e] w1] eqn:B.
    + exists r, w1. split; [reflexivity|]. intros e w2 H. discriminate.
    + destruct (time_time (backend w1)) as [t1 e1].
      eexists. eexists. split; [reflexivity|].
      intros e' w2 H. injection H as <- <-. split; reflexivity.
  - intros text c. unfold validate_query, try_except.
    destruct (validate_query_body text c w) as [[a|e] w1].
    + exists a, w1. split; [reflexivity|]. intros e w2 H. discriminate.
    + eexists. eexists. split; [reflexivity|]. intros; reflexivity.
  - intros c. unfold test_connection, try_except.
    destruct (test_connection_body c w) as [[ok|e] w1].
    + exists ok, w1. split; [reflexivity|]. intros e w2 H. discriminate.
    + eexists. eexists. split; [reflexivity|]. intros; reflexivity.
Qed.
End Boundary.

Lemma unsafe_query_is_blocked_witness :
  exists r w',
    @execute_query _ healthy nonblank_parser drop_users true (init stub0)
    = (Return r, w')
    /\ success r = false
    /\ error_message r = Some "Medium risk query"
    /\ calls w' = [].
Proof.
  destruct (@unsafe_query_is_blocked _ healthy nonblank_parser drop_users
              (init stub0))
    as (r & w' & Hrun & Hfail & Hmsg & _ & _ & Hcalls & _).
  - vm_compute. reflexivity.
  - exists r, w'. repeat split; assumption.
Defined.

(** An exception of the resolution step, here the unknown backend, comes
    back as a failed result that carries its message. *)
Example unsupported_backend_is_reported :
  returned
    (result (@execute_query _ healthy nonblank_parser select_local true)
       (init stub0))
    (fun r =>
       success r = false
       /\ error_message r
          = Some "Unsupported database type: DatabaseType.SQLITE").
Proof. vm_compute. split; reflexivity. Qed.

Section DictFacts.
Context {V : Type}.

Lemma dict_get_set_same (k : string) (v : V) (d : dict V) :
  dict_get k (dict_set k v d) = Some v.
Proof.
  induction d as [|[k' v'] rest IH]; cbn.
  - now rewrite String.eqb_refl.
  - destruct (String.eqb k k') eqn:K; cbn; rewrite K; [reflexivity|exact IH].
Qed.

Lemma dict_get_set_other (k k' : string) (v : V) (d : dict V) :
  k <> k' -> dict_get k' (dict_set k v d) = dict_get k' d.
Proof.
  intros Hne. induction d as [|[k0 v0] rest IH]; cbn.
  - destruct (String.eqb k' k) eqn:K; [|reflexivity].
    apply String.eqb_eq in K. congruence.
  - destruct (String.eqb k k0) eqn:K; cbn.
    + apply String.eqb_eq in K. subst k0.
      destruct (String.eqb k' k) eqn:K'; [|reflexivity].
      apply String.eqb_eq in K'. congruence.
    + now rewrite IH.
Qed.

Lemma dict_set_absent (k : string) (v : V) (d : dict V) :
  dict_get k d = None -> dict_set k v d = (d ++ [(k, v)])%list.
Proof.
  induction d as [|[k0 v0] rest IH]; cbn; [reflexivity|].
  destruct (String.eqb k k0); [discriminate|]. intros H. now rewrite IH.
Qed.

Lemma dict_get_In (k : string) (v : V) (d : dict V) :
  dict_get k d = Some v -> In (k, v) d.
Proof.
  induction d as [|[k0 v0] rest IH]; cbn; [discriminate|].
  destruct (String.eqb k k0) eqn:K.
  - apply String.eqb_eq in K. subst. intros [= ->]. now left.
  - intros H. right. now apply IH.
Qed.
End DictFacts.

Section KeyFacts.
Context {E : Type} {environment : Environment E}.

Lemma split_at_colon (a a' r r' : string) :
  colon_free a = true -> colon_free a' = true ->
  a ++ ":" ++ r = a' ++ ":" ++ r' -> a = a' /\ r = r'.
Proof.
  revert a'. induction a as [|c a IH]; intros [|c' a'] Ha Ha' H; cbn in *.
  - injection H as ->. split; reflexivity.
  - injection H as <- _. cbn in Ha'. discriminate.
  - injection H as -> _. cbn in Ha. discriminate.
  - injection H as -> H.
    apply andb_true_iff in Ha as [_ Ha]. apply andb_true_iff in Ha' as [_ Ha'].
    destruct (IH a' Ha Ha' H) as [-> ->]. split; reflexivity.
Qed.

Lemma uint_colon_free (d : Decimal.uint) :
  colon_free (NilEmpty.string_of_uint d) = true.
Proof. induction d; cbn; auto. Qed.

Lemma str_of_int_colon_free (n : Z) : colon_free (str_of_int n) = true.
Proof.
  unfold str_of_int. destruct (Z.to_int n); cbn; apply uint_colon_free.
Qed.

Lemma str_of_int_inj (n m : Z) : str_of_int n = str_of_int m -> n = m.
Proof.
  unfold str_of_int. intros H.
  assert (Hi : Z.to_int n = Z.to_int m).
  { apply (f_equal NilEmpty.int_of_string) in H.
    rewrite !NilEmpty.isi in H. now injection H. }
  rewrite <- (DecimalZ.of_to n), <- (DecimalZ.of_to m). now rewrite Hi.
Qed.

Lemma format_colon_free (t : DatabaseType) :
  colon_free (format_database_type t) = true.
Proof. destruct t; reflexivity. Qed.

Lemma format_inj (t t' : DatabaseType) :
  format_database_type t = format_database_type t' -> t = t'.
Proof. destruct t, t'; cbn; intros H; reflexivity || discriminate. Qed.

Lemma same_identity_same_key (d1 d2 : DatabaseConnection) :
  same_identity d1 d2 -> _conn_key d1 = _conn_key d2.
Proof.
  intros (Ht & Hh & Hp & Hd & Hu). unfold _conn_key.
  now rewrite Ht, Hh, Hp, Hd, Hu.
Qed.

Lemma key_inj (d1 d2 : DatabaseConnection) :
  colon_free (host d1) = true -> colon_free (database d1) = true ->
  colon_free (host d2) = true -> colon_free (database d2) = true ->
  _conn_key d1 = _conn_key d2 -> same_identity d1 d2.
Proof.
  intros H1 D1 H2 D2 K. unfold _conn_key in K.
  apply split_at_colon in K as [Kt K]; try apply format_colon_free.
  apply split_at_colon in K as [Kh K]; try assumption.
  apply split_at_colon in K as [Kp K]; try apply str_of_int_colon_free.
  apply split_at_colon in K as [Kd Ku]; try assumption.
  repeat split; auto using format_inj, str_of_int_inj.
Qed.
End KeyFacts.

Section ResolveFacts.
Context {E : Type} {environment : Environment E}.

(** The two ways [_get_connector] returns a connector: a cache hit,
    which changes nothing, or a miss, which builds a connector, calls
    [connect] on it once and appends it to the cache. *)
Lemma get_connector_cases (d : DatabaseConnection) (w w1 : World)
    (c : Connector) :
  _get_connector d w = (Return c, w1) ->
  (dict_get (_conn_key d) (_connectors w) = Some c /\ w1 = w)
  \/ (dict_get (_conn_key d) (_connectors w) = None
      /\ oid c = next_oid w
      /\ connection c = d
      /\ _connectors w1 = (_connectors w ++ [(_conn_key d, c)])%list
      /\ next_oid w1 = S (next_oid w)
      /\ calls w1 = (calls w ++ [Call (oid c) m_connect])%list).
Proof.
  unfold _get_connector, bind, gets. intros H.
  destruct (dict_get (_conn_key d) (_connectors w)) as [c0|] eqn:G.
  - left. cbn in H. injection H as <- <-. split; reflexivity.
  - right. destruct (_connector_types (database_type d)) as [path|];
      [|discriminate].
    unfold env at 1 in H.
    destruct (import_class path (backend w)) as [[[]|e] e1]; [|discriminate].
    unfold construct, connect, bind, log, modify, try_except, env, ret, raise
      in H.
    cbn [backend with_backend _connectors next_oid calls oid connection] in H.
    destruct (driver_connect d e1) as [[h|e] e2];
      cbn [backend with_backend _connectors next_oid calls oid connection
           with_connectors with_link] in H.
    + injection H as <- <-. cbn. rewrite (dict_set_absent _ _ _ G).
      repeat split; reflexivity.
    + destruct (is_driver_error e); discriminate.
Qed.

Lemma get_connector_cached (d : DatabaseConnection) (w w1 : World)
    (c : Connector) :
  _get_connector d w = (Return c, w1) ->
  dict_get (_conn_key d) (_connectors w1) = Some c.
Proof.
  intros H. destruct (get_connector_cases d w w1 c H)
    as [[G ->]|(G & _ & _ & Hc & _)]; [exact G|].
  rewrite Hc, <- (dict_set_absent _ c _ G). apply dict_get_set_same.
Qed.

Lemma get_connector_hit (d : DatabaseConnection) (w : World) (c : Connector) :
  dict_get (_conn_key d) (_connectors w) = Some c ->
  _get_connector d w = (Return c, w).
Proof. intros G. unfold _get_connector, bind, gets. now rewrite G. Qed.

Lemma get_connector_keeps (d : DatabaseConnection) (w w1 : World)
    (c : Connector) (k : string) (c0 : Connector) :
  _get_connector d w = (Return c, w1) ->
  k <> _conn_key d ->
  dict_get k (_connectors w) = Some c0 ->
  dict_get k (_connectors w1) = Some c0.
Proof.
  intros H Hk G0. destruct (get_connector_cases d w w1 c H)
    as [[_ ->]|(G & _ & _ & Hc & _)]; [exact G0|].
  rewrite Hc, <- (dict_set_absent _ c _ G).
  rewrite dict_get_set_other; [exact G0|congruence].
Qed.

Lemma get_connector_wf (d : DatabaseConnection) (w w1 : World)
    (c : Connector) :
  wf w -> _get_connector d w = (Return c, w1) -> wf w1.
Proof.
  intros [Hb Hn] H. destruct (get_connector_cases d w w1 c H)
    as [[_ ->]|(G & Ho & _ & Hc & Hx & _)]; [split; assumption|].
  unfold wf. rewrite Hc, Hx. split.
  - apply Forall_app. split.
    + eapply Forall_impl; [|exact Hb]. cbn. intros; lia.
    + constructor; [cbn; lia|constructor].
  - rewrite map_app. cbn [map snd].
    apply NoDup_app; [exact Hn|repeat constructor; intros []|].
    intros o Hin [Ho'|[]]. 
    apply in_map_iff in Hin as (kv & Hkv & Hin).
    rewrite Forall_forall in Hb. specialize (Hb kv Hin). lia.
Qed.

Lemma distinct_entries (d : dict Connector) (k1 k2 : string)
    (c1 c2 : Connector) :
  NoDup (map (fun kv => oid (snd kv)) d) ->
  k1 <> k2 ->
  dict_get k1 d = Some c1 -> dict_get k2 d = Some c2 -> oid c1 <> oid c2.
Proof.
  induction d as [|[k v] rest IH]; cbn; [discriminate|].
  intros Hn Hk G1 G2. inversion Hn as [|? ? Hnotin Hn']; subst.
  destruct (String.eqb k1 k) eqn:K1, (String.eqb k2 k) eqn:K2.
  - apply String.eqb_eq in K1, K2. congruence.
  - injection G1 as ->. apply dict_get_In in G2. intros Heq.
    apply Hnotin. rewrite Heq.
    now apply (in_map (fun kv => oid (snd kv)) rest (k2, c2)).
  - injection G2 as ->. apply dict_get_In in G1. intros Heq.
    apply Hnotin. rewrite <- Heq.
    now apply (in_map (fun kv => oid (snd kv)) rest (k1, c1)).
  - now apply IH.
Qed.

Lemma count_app (p : call -> bool) (l l' : list call) :
  count p (l ++ l') = count p l + count p l'.
Proof. unfold count. now rewrite filter_app, length_app. Qed.

(** What the code keeps of C9.  Descriptors that agree on backend
    type, host, port, database and username have the same key,
    whatever their passwords; once one of them has been resolved to a
    connector,
    resolving the other returns that same connector from the cache,
    changes nothing and calls [connect] no further time.
    Descriptors whose host and database hold no colon and that
    differ in one of the five fields have distinct keys; resolving
    two descriptors with distinct keys yields two different
    connector objects, each cached under its own key, and a key that
    was not cached gets its own [connect] call. *)
Theorem identity_key_shares_connector :
  (forall d1 d2, same_identity d1 d2 -> _conn_key d1 = _conn_key d2)
  /\ (forall (w w1 : World) d1 d2 c,
        same_identity d1 d2 ->
        _get_connector d1 w = (Return c, w1) ->
        _get_connector d2 w1 = (Return c, w1)
        /\ count is_connect (calls w1) <= S (count is_connect (calls w)))
  /\ (forall d1 d2,
        colon_free (host d1) = true -> colon_free (database d1) = true ->
        colon_free (host d2) = true -> colon_free (database d2) = true ->
        ~ same_identity d1 d2 -> _conn_key d1 <> _conn_key d2)
  /\ (forall (w w1 w2 : World) d1 d2 c1 c2,
        wf w ->
        _conn_key d1 <> _conn_key d2 ->
        _get_connector d1 w = (Return c1, w1) ->
        _get_connector d2 w1 = (Return c2, w2) ->
        oid c1 <> oid c2
        /\ dict_get (_conn_key d1) (_connectors w2) = Some c1
        /\ dict_get (_conn_key d2) (_connectors w2) = Some c2
        /\ (dict_get (_conn_key d2) (_connectors w1) = None ->
            calls w2 = (calls w1 ++ [Call (oid c2) m_connect])%list)).
Proof.
  split; [exact same_identity_same_key|split; [|split]].
  - intros w w1 d1 d2 c Hsame H. split.
    + apply get_connector_hit. rewrite <- (same_identity_same_key d1 d2 Hsame).
      exact (get_connector_cached d1 w w1 c H).
    + destruct (get_connector_cases d1 w w1 c H)
        as [[_ ->]|(_ & _ & _ & _ & _ & Hc)]; [lia|].
      rewrite Hc, count_app. cbn. lia.
  - intros d1 d2 H1 D1 H2 D2 Hdiff K. apply Hdiff. now apply key_inj.
  - intros w w1 w2 d1 d2 c1 c2 Hwf Hk R1 R2.
    pose proof (get_connector_wf d1 w w1 c1 Hwf R1) as Hwf1.
    pose proof (get_connector_wf d2 w1 w2 c2 Hwf1 R2) as [_ Hn2].
    pose proof (get_connector_cached d1 w w1 c1 R1) as G1.
    pose proof (get_connector_keeps d2 w1 w2 c2 _ c1 R2 Hk G1) as G1'.
    pose proof (get_connector_cached d2 w1 w2 c2 R2) as G2.
    split; [exact (distinct_entries _ _ _ _ _ Hn2 Hk G1' G2)|].
    split; [exact G1'|split; [exact G2|]].
    intros Hmiss. destruct (get_connector_cases d2 w1 w2 c2 R2)
      as [[G _]|(_ & _ & _ & _ & _ & Hc)]; [congruence|exact Hc].
Qed.
End ResolveFacts.

Lemma identity_key_shares_connector_witness :
  _conn_key orders = _conn_key orders_rotated
  /\ _conn_key orders <> _conn_key orders_replica.
Proof.
  split.
  - apply (proj1 (@identity_key_shares_connector _ healthy)).
    repeat split.
  - apply (proj1 (proj2 (proj2 (@identity_key_shares_connector _ healthy))));
      try reflexivity.
    intros (_ & _ & Hport & _). discriminate.
Defined.

(** C9, at a failing input.  [_conn_key] joins the five fields of the
    identity with colons and escapes none of them, so the key is not
    the tuple.  [sales_eu] (database sales:eu, user app) and [sales]
    (database sales, user eu:app) differ in database and in username
    and have one key.  A tool that has served [sales_eu] answers a
    request for [sales] from the cache: it returns the connector that
    is logged in to the other database as the other user, and no
    connect is made for [sales]. *)
Theorem colon_collision :
  let w1 := after (@_get_connector _ healthy sales_eu) (init stub0) in
  let w2 := after (@_get_connector _ healthy sales) w1 in
  database sales_eu <> database sales
  /\ username sales_eu <> username sales
  /\ _conn_key sales_eu = _conn_key sales
  /\ result (@_get_connector _ healthy sales) w1
     = result (@_get_connector _ healthy sales_eu) (init stub0)
  /\ returned (result (@_get_connector _ healthy sales) w1)
       (fun c => connection c = sales_eu /\ connection c <> sales)
  /\ count is_connect (calls w1) = 1
  /\ count is_connect (calls w2) = 1.
Proof.
  vm_compute. repeat split; try discriminate; try reflexivity.
Qed.

Section CloseFacts.
Context {E : Type} {environment : Environment E}.

Lemma close_returns (c : Connector) (w : World) :
  (forall h e, exists e', driver_close h e = (Return tt, e')) ->
  exists c' w',
    close c w = (Return c', w')
    /\ _connectors w' = _connectors w
    /\ calls w' = (calls w ++ [Call (oid c) m_close])%list.
Proof.
  intros Hclose. unfold close, bind, log, modify.
  destruct (_is_connected c).
  - unfold disconnect. destruct (_connection c) as [h|].
    + unfold bind, env. cbn [backend].
      destruct (Hclose h (backend w)) as [e' ->].
      eexists. eexists. split; [reflexivity|]. split; reflexivity.
    + eexists. eexists. split; [reflexivity|]. split; reflexivity.
  - eexists. eexists. split; [reflexivity|]. split; reflexivity.
Qed.

Lemma bind_return {W A B : Type} (m : M W A) (f : A -> M W B)
    (w w1 : W) (a : A) :
  m w = (Return a, w1) -> bind m f w = f a w1.
Proof. intros H. unfold bind. now rewrite H. Qed.

Lemma close_item_returns (k : string) (c : Connector)
    (rest : dict Connector) (w : World) :
  (forall h e, exists e', driver_close h e = (Return tt, e')) ->
  _connectors w = (k, c) :: rest ->
  exists w',
    try_finally (bind (close c) (fun _ => ret tt)) (del_connector k) w
    = (Return tt, w')
    /\ _connectors w' = rest
    /\ calls w' = (calls w ++ [Call (oid c) m_close])%list.
Proof.
  intros Hclose Hw.
  destruct (close_returns c w Hclose) as (c' & w1 & Hc & Hc1 & Hl1).
  unfold try_finally. rewrite (bind_return _ _ _ _ _ Hc). unfold ret.
  unfold del_connector, bind, gets, modify.
  rewrite Hc1, Hw. cbn [dict_get]. rewrite String.eqb_refl.
  eexists. split; [reflexivity|]. cbn. rewrite Hc1, Hw. cbn.
  rewrite String.eqb_refl. split; [reflexivity|exact Hl1].
Qed.

(** When no native close raises, [close_all_connections] closes every
    cached connector once, in cache order, and empties the cache. *)
Lemma close_all_when_no_close_raises :
  (forall h e, exists e', driver_close h e = (Return tt, e')) ->
  forall w : World, exists w',
    close_all_connections w = (Return tt, w')
    /\ _connectors w' = []
    /\ calls w'
       = (calls w
          ++ map (fun kv => Call (oid (snd kv)) m_close) (_connectors w))%list.
Proof.
  intros Hclose w. unfold close_all_connections.
  rewrite (bind_return (gets _) _ w w (_connectors w) eq_refl).
  remember (_connectors w) as items eqn:Hitems.
  revert w Hitems. induction items as [|[k c] rest IH]; intros w Hitems.
  - exists w. cbn. rewrite app_nil_r. repeat split; congruence.
  - cbn [for_each fst snd].
    destruct (close_item_returns k c rest w Hclose (eq_sym Hitems))
      as (w1 & Hstep & Hc1 & Hl1).
    rewrite (bind_return _ _ _ _ _ Hstep).
    destruct (IH w1 (eq_sym Hc1)) as (w' & -> & He & Hl).
    exists w'. split; [reflexivity|]. split; [exact He|].
    rewrite Hl, Hl1. cbn [map snd]. now rewrite <- app_assoc.
Qed.
(** A native close that raises ends [close_all_connections]: the entry
    of the failing connector is removed, the exception leaves the loop,
    and the connectors after it are neither closed nor removed. *)
Lemma close_all_aborts_on_failure (w : World) (k : string) (c : Connector)
    (h : nat) (rest : dict Connector) (e : exn) (e' : E) :
  _connectors w = (k, c) :: rest ->
  _is_connected c = true ->
  _connection c = Some h ->
  driver_close h (backend w) = (Raise e, e') ->
  exists w',
    close_all_connections w = (Raise e, w')
    /\ _connectors w' = rest
    /\ calls w' = (calls w ++ [Call (oid c) m_close])%list.
Proof.
  intros Hw Hup Hh Hclose. unfold close_all_connections.
  rewrite (bind_return (gets _) _ w w (_connectors w) eq_refl), Hw.
  cbn [for_each fst snd].
  unfold bind at 1, try_finally, bind at 1, close, bind at 1, log, modify.
  rewrite Hup. unfold bind at 1, disconnect. rewrite Hh.
  unfold bind at 1, env. cbn [backend]. rewrite Hclose.
  unfold del_connector, bind, gets, modify.
  unfold with_backend. cbn [_connectors next_oid calls backend].
  rewrite Hw. cbn [dict_get]. rewrite String.eqb_refl.
  eexists. split; [reflexivity|].
  unfold with_connectors. cbn [_connectors next_oid calls backend dict_remove].
  rewrite String.eqb_refl. split; reflexivity.
Qed.
End CloseFacts.

(** C3, at a failing input. A tool holds two connectors, with native
    handles 0 and 1, and the driver raises on closing handle 0.
    [close_all_connections] raises that error, removes the first
    entry only, and never calls [close] on the second connector,
    which stays in the cache. *)
Theorem close_all_stops_at_failing_close :
  let w := two_cached lost_first in
  let w' := after (@close_all_connections _ lost_first) w in
  map fst (_connectors w) = [_conn_key orders; _conn_key orders_replica]
  /\ map (fun kv => oid (snd kv)) (_connectors w) = [0; 1]
  /\ result (@close_all_connections _ lost_first) w
     = Raise {| e_class := DriverError;
                e_str := "connection already closed" |}
  /\ map fst (_connectors w') = [_conn_key orders_replica]
  /\ count (is_close_of 0) (calls w') = 1
  /\ count (is_close_of 1) (calls w') = 0.
Proof. vm_compute. repeat split; reflexivity. Qed.

End ToolFacts.

(* ===================================================================== *)
(** * The checks do not depend on letter case or padding *)
(* ===================================================================== *)

Module CaseFacts.
Import Text Re Models RiskChecker Spec Notions.

Ltac by_cases_on c := destruct c as [[] [] [] [] [] [] [] []]; reflexivity.

Lemma fold_isword c : isword (fold_case c) = isword c.
Proof. by_cases_on c. Qed.
Lemma fold_isspace c : isspace (fold_case c) = isspace c.
Proof. by_cases_on c. Qed.
Lemma fold_newline c : Ascii.eqb (fold_case c) newline = Ascii.eqb c newline.
Proof. by_cases_on c. Qed.
Lemma fold_fold c : fold_case (fold_case c) = fold_case c.
Proof. by_cases_on c. Qed.
Lemma fold_upper c : upper_char (fold_case c) = upper_char c.
Proof. by_cases_on c. Qed.

Lemma fold_in_cls k c : in_cls k (fold_case c) = in_cls k c.
Proof.
  destruct k; cbn [in_cls]; auto using fold_isword, fold_isspace.
  now rewrite fold_newline.
Qed.

Lemma fold_eqb_nocase x c : eqb_nocase x (fold_case c) = eqb_nocase x c.
Proof. unfold eqb_nocase. now rewrite fold_fold. Qed.


Lemma fold_word_before p : word_before (fold_prev p) = word_before p.
Proof. destruct p; cbn; auto using fold_isword. Qed.
Lemma fold_word_after s : word_after (casefold s) = word_after s.
Proof. destruct s; cbn; auto using fold_isword. Qed.
Lemma fold_at_end s : at_end (casefold s) = at_end s.
Proof. destruct s as [|c [|d s]]; cbn; auto using fold_newline. Qed.
Lemma fold_at_eol s : at_eol (casefold s) = at_eol s.
Proof. destruct s; cbn; auto using fold_newline. Qed.

Lemma orelse_map a b :
  orelse (option_map casefold a) (option_map casefold b)
  = option_map casefold (orelse a b).
Proof. destruct a; reflexivity. Qed.

Ltac use H :=
  let H' := fresh in
  pose proof H as H'; cbn [casefold fold_prev option_map] in H';
  first [exact H' | rewrite H'; try reflexivity]; clear H'.

Lemma many_fold (cl : cls) (k k' : cont) :
  agree k k' ->
  forall s p, many (in_cls cl) k' (fold_prev p) (casefold s)
              = option_map casefold (many (in_cls cl) k p s).
Proof.
  intros Hk. induction s as [|c s IH]; intros p; cbn [many casefold].
  - use (Hk p "").
  - rewrite fold_in_cls. destruct (in_cls cl c).
    + use (IH (Some c)). use (Hk p (String c s)). apply orelse_map.
    + use (Hk p (String c s)).
Qed.

Lemma few_fold (cl : cls) (k k' : cont) :
  agree k k' ->
  forall s p, few (in_cls cl) k' (fold_prev p) (casefold s)
              = option_map casefold (few (in_cls cl) k p s).
Proof.
  intros Hk. induction s as [|c s IH]; intros p; cbn [few casefold].
  - use (Hk p ""). destruct (k p ""); reflexivity.
  - use (Hk p (String c s)). destruct (k p (String c s)); [reflexivity|].
    cbn [option_map]. rewrite fold_in_cls.
    destruct (in_cls cl c); [|reflexivity]. use (IH (Some c)).
Qed.

Lemma run_fold (r : regex) :
  forall k k', agree k k' ->
  forall p s, run r k' (fold_prev p) (casefold s)
              = option_map casefold (run r k p s).
Proof.
  induction r; intros k0 k' Hk p s; cbn [run].
  - apply Hk.
  - destruct s as [|x s]; cbn [casefold]; [reflexivity|].
    rewrite fold_eqb_nocase. destruct (eqb_nocase c x); [|reflexivity].
    use (Hk (Some x) s).
  - destruct s as [|x s]; cbn [casefold]; [reflexivity|].
    rewrite fold_in_cls. destruct (in_cls k x); [|reflexivity].
    use (Hk (Some x) s).
  - now apply many_fold.
  - now apply few_fold.
  - apply IHr1. intros p' t. now apply IHr2.
  - rewrite (IHr1 k0 k' Hk), (IHr2 k0 k' Hk). apply orelse_map.
  - rewrite fold_word_before, fold_word_after.
    destruct (xorb _ _); [apply Hk|reflexivity].
  - rewrite fold_at_end. destruct (at_end s); [apply Hk|reflexivity].
  - rewrite fold_at_eol. destruct (at_eol s); [apply Hk|reflexivity].
Qed.

Lemma match_at_fold r p s :
  match_at r (fold_prev p) (casefold s) = option_map casefold (match_at r p s).
Proof. unfold match_at. apply run_fold. intros p' t. reflexivity. Qed.

Lemma casefold_length s : String.length (casefold s) = String.length s.
Proof. induction s; cbn; congruence. Qed.

Lemma match_length_fold r p s :
  match_length r (fold_prev p) (casefold s) = match_length r p s.
Proof.
  unfold match_length. rewrite match_at_fold.
  destruct (match_at r p s); cbn; [|reflexivity].
  now rewrite !casefold_length.
Qed.

Lemma search_from_fold r s :
  forall p, search_from r (fold_prev p) (casefold s) = search_from r p s.
Proof.
  induction s as [|c s IH]; intros p; cbn [search_from casefold].
  - use (match_at_fold r p ""). destruct (match_at r p ""); reflexivity.
  - use (match_at_fold r p (String c s)). use (IH (Some c)).
    destruct (match_at r p (String c s)); reflexivity.
Qed.

Lemma search_fold r s : search r (casefold s) = search r s.
Proof. exact (search_from_fold r s None). Qed.

Lemma count_from_fold r s :
  forall n p, count_from r n (fold_prev p) (casefold s) = count_from r n p s.
Proof.
  induction s as [|c s IH]; intros n p.
  - destruct n; cbn [count_from casefold]; [|reflexivity].
    use (match_length_fold r p "").
  - destruct n; cbn [count_from casefold].
    + use (match_length_fold r p (String c s)).
      destruct (match_length r p (String c s)) as [m|];
        [use (IH (pred m) (Some c)) | use (IH 0 (Some c))].
    + use (IH n (Some c)).
Qed.

Lemma findall_count_fold r s : findall_count r (casefold s) = findall_count r s.
Proof. exact (count_from_fold r s 0 None). Qed.

Lemma delete_from_fold r s :
  forall n p, delete_from r n (fold_prev p) (casefold s)
              = casefold (delete_from r n p s).
Proof.
  induction s as [|c s IH]; intros n p; cbn [delete_from casefold];
    [reflexivity|].
  destruct n.
  - use (match_length_fold r p (String c s)).
    destruct (match_length r p (String c s)) as [[|m]|]; cbn [casefold];
      [use (IH 0 (Some c)) | use (IH m (Some c)) | use (IH 0 (Some c))].
  - use (IH n (Some c)).
Qed.

Lemma sub_empty_fold r s : sub_empty r (casefold s) = casefold (sub_empty r s).
Proof. exact (delete_from_fold r s 0 None). Qed.

Lemma lstrip_fold s : lstrip (casefold s) = casefold (lstrip s).
Proof.
  induction s as [|c s IH]; cbn [lstrip casefold]; [reflexivity|].
  rewrite fold_isspace. destruct (isspace c); [exact IH|reflexivity].
Qed.

Lemma rstrip_fold s : rstrip (casefold s) = casefold (rstrip s).
Proof.
  induction s as [|c s IH]; cbn [rstrip casefold]; [reflexivity|].
  rewrite IH, fold_isspace.
  destruct (rstrip s); cbn [casefold]; [destruct (isspace c)|]; reflexivity.
Qed.

Lemma strip_fold s : strip (casefold s) = casefold (strip s).
Proof. unfold strip. now rewrite lstrip_fold, rstrip_fold. Qed.

Lemma any_search_fold pats q : any_search pats (casefold q) = any_search pats q.
Proof.
  unfold any_search. induction pats as [|r pats IH]; cbn; [reflexivity|].
  now rewrite search_fold, IH.
Qed.

Lemma missing_where_fold q :
  _has_missing_where_clause (casefold q) = _has_missing_where_clause q.
Proof.
  unfold _has_missing_where_clause.
  now rewrite !sub_empty_fold, strip_fold, !search_fold.
Qed.

Lemma heuristics_fold q l : heuristics (casefold q) l = heuristics q l.
Proof.
  unfold heuristics, _is_data_modification_query, _is_schema_change_query,
    _has_wildcard_select, _contains_system_commands.
  now rewrite !any_search_fold, missing_where_fold, search_fold.
Qed.

Lemma dangerous_loop_fold q : dangerous_loop (casefold q) = dangerous_loop q.
Proof.
  unfold dangerous_loop. generalize locals0.
  induction dangerous_patterns as [|[name pat] rest IH]; intros l;
    cbn [fold_left]; [reflexivity|].
  unfold dangerous_step at 2 4. rewrite search_fold. apply IH.
Qed.

Lemma complexity_fold q :
  _calculate_complexity_score (casefold q) = _calculate_complexity_score q.
Proof.
  unfold _calculate_complexity_score.
  rewrite (map_ext (fun p => findall_count p (casefold q))
             (fun p => findall_count p q)); [reflexivity|].
  intros r. apply findall_count_fold.
Qed.

(** What the assessment of a parsed query is made of. *)
Lemma assess_parsed_eq {parser : SqlParse} (q q' : string) :
  sqlparse_parse q <> 0 -> sqlparse_parse q' <> 0 ->
  heuristics q (dangerous_loop q) = heuristics q' (dangerous_loop q') ->
  _calculate_complexity_score q = _calculate_complexity_score q' ->
  assess_query_risk q = assess_query_risk q'.
Proof.
  intros Hp Hp' Hh Hc. unfold assess_query_risk.
  destruct (sqlparse_parse q); [congruence|].
  destruct (sqlparse_parse q'); [congruence|].
  now rewrite Hh, Hc.
Qed.

(** Two texts that differ in the case of their letters only, and that
    the parser both accepts or both rejects, get the same assessment:
    every pattern of the checker is matched with IGNORECASE and nothing
    else in the assessment reads the text. *)
Theorem assessment_ignores_letter_case {parser : SqlParse} (q q' : string) :
  same_letters q q' ->
  (sqlparse_parse q = 0 <-> sqlparse_parse q' = 0) ->
  assess_query_risk q = assess_query_risk q'.
Proof.
  intros Hsame Hparse.
  destruct (Nat.eq_dec (sqlparse_parse q) 0) as [Hz|Hp].
  - unfold assess_query_risk. rewrite Hz, (proj1 Hparse Hz). reflexivity.
  - apply assess_parsed_eq; [exact Hp|tauto| |].
    + rewrite <- (heuristics_fold q), <- (heuristics_fold q'),
        <- (dangerous_loop_fold q), <- (dangerous_loop_fold q').
      unfold same_letters in Hsame. now rewrite Hsame.
    + rewrite <- (complexity_fold q), <- (complexity_fold q').
      unfold same_letters in Hsame. now rewrite Hsame.
Qed.


Lemma assessment_ignores_letter_case_witness :
  same_letters "delete from Users" "DELETE FROM users"
  /\ @assess_query_risk nonblank_parser "delete from Users"
     = @assess_query_risk nonblank_parser "DELETE FROM users".
Proof.
  assert (H : same_letters "delete from Users" "DELETE FROM users")
    by reflexivity.
  split; [exact H|].
  apply (@assessment_ignores_letter_case nonblank_parser _ _ H).
  split; intros Hz; vm_compute in Hz; discriminate.
Defined.

Lemma upper_fold s : upper (casefold s) = upper s.
Proof. induction s; cbn; [reflexivity|]. now rewrite fold_upper, IHs. Qed.

(** The classifier upper-cases the text before it compares, so the case
    of the letters does not change the query type. *)
Theorem classification_ignores_letter_case (q q' : string) :
  same_letters q q' -> Base._parse_query_type q = Base._parse_query_type q'.
Proof.
  intros H. unfold Base._parse_query_type.
  rewrite <- (upper_fold (strip q)), <- (upper_fold (strip q')),
    <- !strip_fold. unfold same_letters in H. now rewrite H.
Qed.


Lemma classification_ignores_letter_case_witness :
  same_letters "Drop table t" "DROP TABLE T"
  /\ Base._parse_query_type "Drop table t"
     = Base._parse_query_type "DROP TABLE T".
Proof.
  assert (H : same_letters "Drop table t" "DROP TABLE T") by reflexivity.
  split; [exact H|].
  exact (classification_ignores_letter_case _ _ H).
Defined.

Lemma lstrip_blank l s : blank l = true -> lstrip (l ++ s) = lstrip s.
Proof.
  induction l as [|c l IH]; cbn; [reflexivity|]. intros H.
  apply andb_true_iff in H as [Hc Hl]. rewrite Hc. now apply IH.
Qed.

Lemma rstrip_blank_all r : blank r = true -> rstrip r = "".
Proof.
  induction r as [|c r IH]; cbn; [reflexivity|]. intros H.
  apply andb_true_iff in H as [Hc Hr]. now rewrite (IH Hr), Hc.
Qed.

Lemma rstrip_blank s r : blank r = true -> rstrip (s ++ r) = rstrip s.
Proof.
  intros Hr. induction s as [|c s IH]; cbn [append rstrip].
  - now apply rstrip_blank_all.
  - now rewrite IH.
Qed.

Lemma lstrip_blank_all s : blank s = true -> lstrip s = "".
Proof.
  induction s as [|c s IH]; cbn; [reflexivity|]. intros H.
  apply andb_true_iff in H as [Hc Hs]. rewrite Hc. now apply IH.
Qed.

Lemma lstrip_app s r :
  blank s = false -> lstrip (s ++ r) = lstrip s ++ r.
Proof.
  induction s as [|c s IH]; cbn; [discriminate|].
  destruct (isspace c); cbn; [exact IH|reflexivity].
Qed.

Lemma strip_padding l s r :
  blank l = true -> blank r = true -> strip (l ++ s ++ r) = strip s.
Proof.
  intros Hl Hr. unfold strip. rewrite (lstrip_blank l _ Hl).
  destruct (blank s) eqn:Hs.
  - assert (Hb : blank (s ++ r) = true).
    { clear Hl. induction s as [|c s IH]; cbn in *; [exact Hr|].
      apply andb_true_iff in Hs as [Hc Hs]. rewrite Hc. now apply IH. }
    now rewrite (lstrip_blank_all _ Hb), (lstrip_blank_all _ Hs).
  - rewrite (lstrip_app s r Hs). now apply rstrip_blank.
Qed.

(** White space before and after a statement does not change its query
    type: the classifier strips the text first. *)
Theorem classification_ignores_padding (l q r : string) :
  blank l = true -> blank r = true ->
  Base._parse_query_type (l ++ q ++ r) = Base._parse_query_type q.
Proof.
  intros Hl Hr. unfold Base._parse_query_type.
  now rewrite (strip_padding l q r Hl Hr).
Qed.

Lemma classification_ignores_padding_witness :
  Base._parse_query_type ("   " ++ "DROP TABLE t" ++ "  ")
  = Base._parse_query_type "DROP TABLE t".
Proof. apply classification_ignores_padding; reflexivity. Defined.

End CaseFacts.

(* ===================================================================== *)
(** * Further properties of the assessment *)
(* ===================================================================== *)

Module VerdictFacts.
Import Text Re Models RiskChecker Spec Notions RiskFacts.
Local Open Scope Q_scope.

(** The level follows the score: a higher score never gives a lower
    level. *)
Theorem level_is_monotone (s1 s2 : Q) :
  s1 <= s2 ->
  (rank (_determine_risk_level s1) <= rank (_determine_risk_level s2))%nat.
Proof.
  intros H. unfold _determine_risk_level, t_critical, t_high, t_medium.
  destruct (Qle_bool 90 s1) eqn:A1; destruct (Qle_bool 70 s1) eqn:B1;
    destruct (Qle_bool 40 s1) eqn:C1;
    destruct (Qle_bool 90 s2) eqn:A2; destruct (Qle_bool 70 s2) eqn:B2;
    destruct (Qle_bool 40 s2) eqn:C2; cbn [rank]; try lia;
    repeat match goal with
           | H : Qle_bool _ _ = true |- _ => apply Qle_bool_iff in H
           | H : Qle_bool _ _ = false |- _ => apply Qle_bool_false in H
           end; lra.
Qed.

Lemma step_warning_list (q : string) (l : locals) (e : string * regex) :
  l_warnings (dangerous_step q l e)
  = (l_warnings l
     ++ (if matches q e then [warning_of e] else []))%list.
Proof.
  destruct e as [name pat]. unfold dangerous_step, matches. cbn [snd fst].
  destruct (search pat q); cbn [l_warnings]; [reflexivity|].
  now rewrite app_nil_r.
Qed.

Lemma loop_warning_list (q : string) (pats : list (string * regex)) :
  forall l,
    l_warnings (fold_left (dangerous_step q) pats l)
    = (l_warnings l
       ++ map warning_of (filter (matches q) pats))%list.
Proof.
  induction pats as [|e rest IH]; intros l; cbn [fold_left filter map].
  - now rewrite app_nil_r.
  - rewrite IH, step_warning_list, <- app_assoc.
    destruct (matches q e); reflexivity.
Qed.

Lemma heuristics_warning_list (q : string) (l : locals) :
  l_warnings (heuristics q l)
  = (l_warnings l
     ++ note (_is_data_modification_query q)
          "Data modification operation detected"
     ++ note (_is_schema_change_query q)
          "Schema modification operation detected"
     ++ note (_has_missing_where_clause q)
          "UPDATE/DELETE query without WHERE clause"
     ++ note (_has_wildcard_select q) "Wildcard SELECT statement detected"
     ++ note (_contains_system_commands q) "System command detected")%list.
Proof.
  unfold heuristics, when, fire, note.
  destruct (_is_data_modification_query q), (_is_schema_change_query q),
    (_has_missing_where_clause q), (_has_wildcard_select q),
    (_contains_system_commands q); cbn [l_warnings app];
    rewrite <- ?app_assoc, ?app_nil_r; reflexivity.
Qed.

Section Verdicts.
Context {parser : SqlParse}.

Lemma parsed_warnings (q : string) :
  sqlparse_parse q <> 0%nat ->
  warnings (assess_query_risk q)
  = (map warning_of (matching q)
     ++ note (_is_data_modification_query q)
          "Data modification operation detected"
     ++ note (_is_schema_change_query q)
          "Schema modification operation detected"
     ++ note (_has_missing_where_clause q)
          "UPDATE/DELETE query without WHERE clause"
     ++ note (_has_wildcard_select q) "Wildcard SELECT statement detected"
     ++ note (_contains_system_commands q) "System command detected")%list.
Proof.
  intros Hp. unfold assess_query_risk.
  destruct (sqlparse_parse q); [congruence|]. cbn [warnings].
  rewrite heuristics_warning_list. unfold dangerous_loop.
  rewrite loop_warning_list. reflexivity.
Qed.

Lemma parsed_recommendation (q : string) :
  sqlparse_parse q <> 0%nat ->
  recommendation (assess_query_risk q)
  = Some (_recommendation (risk_level (assess_query_risk q))
            (dangerous_operations (assess_query_risk q))
            (warnings (assess_query_risk q))).
Proof.
  intros Hp. unfold assess_query_risk.
  destruct (sqlparse_parse q); [congruence|reflexivity].
Qed.

(** An assessment without warnings is that of a text the parser
    accepted; it is safe, at the lowest level, with a score of at most
    5 (the complexity term alone), no dangerous operation, and the
    recommendation of a safe query.  By contraposition, an assessment
    that is unsafe carries a warning that says why. *)
Theorem no_warnings_means_safe (q : string) :
  warnings (assess_query_risk q) = [] ->
  sqlparse_parse q <> 0%nat
  /\ is_safe (assess_query_risk q) = true
  /\ risk_level (assess_query_risk q) = LOW
  /\ risk_score (assess_query_risk q) <= 5
  /\ dangerous_operations (assess_query_risk q) = []
  /\ recommendation (assess_query_risk q) = Some "Query appears safe".
Proof.
  intros Hw0.
  assert (Hp : sqlparse_parse q <> 0%nat).
  { intros Hz. unfold assess_query_risk in Hw0. rewrite Hz in Hw0.
    discriminate. }
  split; [exact Hp|].
  pose proof Hw0 as Hw. rewrite (parsed_warnings q Hp) in Hw.
  apply app_eq_nil in Hw as [Hm Hw].
  apply map_eq_nil in Hm.
  unfold note in Hw.
  destruct (_is_data_modification_query q) eqn:H1; [discriminate|].
  destruct (_is_schema_change_query q) eqn:H2; [discriminate|].
  destruct (_has_missing_where_clause q) eqn:H3; [discriminate|].
  destruct (_has_wildcard_select q) eqn:H4; [discriminate|].
  destruct (_contains_system_commands q) eqn:H5; [discriminate|].
  pose proof (parsed_score q Hp) as Hs.
  destruct (parsed_fields q Hp) as (Hd & Hsafe & Hl).
  pose proof (complexity_range q) as [C0 C1].
  assert (Hscore : risk_score (assess_query_risk q) <= 5).
  { rewrite Hs, Hm. unfold other_weights, weight_if.
    rewrite H1, H2, H3, H4, H5. cbn [List.length].
    change (inject_Z (Z.of_nat 0)) with 0.
    eapply Qle_trans; [apply Q.le_min_l|]. lra. }
  assert (H70 : Qle_bool 70 (risk_score (assess_query_risk q)) = false)
    by (apply Qle_bool_false; lra).
  assert (H90 : Qle_bool 90 (risk_score (assess_query_risk q)) = false)
    by (apply Qle_bool_false; lra).
  assert (H40 : Qle_bool 40 (risk_score (assess_query_risk q)) = false)
    by (apply Qle_bool_false; lra).
  split; [|split; [|split; [exact Hscore|split]]].
  - rewrite Hsafe, Hm, H3, H5, H70. reflexivity.
  - rewrite Hl. unfold level_of_score. rewrite H70, H90, H40. reflexivity.
  - now rewrite Hd, Hm.
  - rewrite (parsed_recommendation q Hp), Hw0, Hd, Hm, Hl.
    unfold level_of_score. rewrite H70, H90, H40. reflexivity.
Qed.

(** A parsed query in which a system command occurs is unsafe whatever
    else it holds; it scores at least 40 and the warning says so. *)
Theorem system_command_is_unsafe (q : string) :
  sqlparse_parse q <> 0%nat ->
  _contains_system_commands q = true ->
  is_safe (assess_query_risk q) = false
  /\ 40 <= risk_score (assess_query_risk q)
  /\ In "System command detected" (warnings (assess_query_risk q)).
Proof.
  intros Hp Hc.
  destruct (parsed_fields q Hp) as (_ & Hsafe & _).
  split; [|split].
  - rewrite Hsafe, Hc. now rewrite andb_false_r.
  - rewrite (parsed_score q Hp).
    assert (0 <= inject_Z (Z.of_nat (List.length (matching q)))).
    { rewrite <- (Zle_Qle 0). lia. }
    pose proof (complexity_range q) as [C0 _].
    apply Q.min_glb; [|lra].
    unfold other_weights, weight_if. rewrite Hc.
    destruct (_is_data_modification_query q), (_is_schema_change_query q),
      (_has_missing_where_clause q), (_has_wildcard_select q); lra.
  - rewrite (parsed_warnings q Hp), Hc. unfold note at 5.
    rewrite !in_app_iff. do 5 right. now left.
Qed.

(** A parsed UPDATE or DELETE without WHERE is unsafe whatever its score;
    it scores at least 20 and the warning says so. *)
Theorem missing_where_is_unsafe (q : string) :
  sqlparse_parse q <> 0%nat ->
  _has_missing_where_clause q = true ->
  is_safe (assess_query_risk q) = false
  /\ 20 <= risk_score (assess_query_risk q)
  /\ In "UPDATE/DELETE query without WHERE clause"
        (warnings (assess_query_risk q)).
Proof.
  intros Hp Hc.
  destruct (parsed_fields q Hp) as (_ & Hsafe & _).
  split; [|split].
  - rewrite Hsafe, Hc. now rewrite andb_false_r.
  - rewrite (parsed_score q Hp).
    assert (0 <= inject_Z (Z.of_nat (List.length (matching q)))).
    { rewrite <- (Zle_Qle 0). lia. }
    pose proof (complexity_range q) as [C0 _].
    apply Q.min_glb; [|lra].
    unfold other_weights, weight_if. rewrite Hc.
    destruct (_is_data_modification_query q), (_is_schema_change_query q),
      (_contains_system_commands q), (_has_wildcard_select q); lra.
  - rewrite (parsed_warnings q Hp), Hc. unfold note at 3.
    rewrite !in_app_iff. do 3 right. left. now left.
Qed.
End Verdicts.

Lemma no_warnings_means_safe_witness :
  warnings (@assess_query_risk nonblank_parser "SELECT 1") = []
  /\ is_safe (@assess_query_risk nonblank_parser "SELECT 1") = true.
Proof.
  assert (H : warnings (@assess_query_risk nonblank_parser "SELECT 1") = [])
    by (vm_compute; reflexivity).
  split; [exact H|].
  exact (proj1 (proj2 (@no_warnings_means_safe nonblank_parser _ H))).
Defined.

Lemma level_is_monotone_witness :
  (rank (_determine_risk_level 10) <= rank (_determine_risk_level 95))%nat.
Proof. apply level_is_monotone. vm_compute. discriminate. Defined.

Lemma system_command_is_unsafe_witness :
  is_safe (@assess_query_risk nonblank_parser "EXEC sp_who") = false.
Proof.
  refine (proj1 (@system_command_is_unsafe nonblank_parser
                   "EXEC sp_who" _ _)).
  - vm_compute. discriminate.
  - vm_compute. reflexivity.
Defined.

Lemma missing_where_is_unsafe_witness :
  is_safe (@assess_query_risk nonblank_parser "UPDATE accounts SET open = 0")
  = false.
Proof.
  refine (proj1 (@missing_where_is_unsafe nonblank_parser
                   "UPDATE accounts SET open = 0" _ _)).
  - vm_compute. discriminate.
  - vm_compute. reflexivity.
Defined.


Lemma matching_count (q name : string) (pat : regex) :
  In (name, pat) dangerous_patterns -> search pat q = true ->
  1 <= inject_Z (Z.of_nat (List.length (matching q))).
Proof.
  intros Hin Hs.
  assert (In (name, pat) (matching q)) as H
    by (apply filter_In; split; [exact Hin|exact Hs]).
  destruct (matching q); [destruct H|]. cbn [List.length].
  rewrite <- (Zle_Qle 1). lia.
Qed.

Lemma any_search_In (pats : list regex) (r : regex) (q : string) :
  In r pats -> search r q = true -> any_search pats q = true.
Proof.
  intros Hin Hs. unfold any_search. apply existsb_exists. now exists r.
Qed.

Lemma level_at_least (s : Q) :
  (70 <= s -> (2 <= rank (_determine_risk_level s))%nat)
  /\ (40 <= s -> (1 <= rank (_determine_risk_level s))%nat).
Proof.
  unfold _determine_risk_level, t_critical, t_high, t_medium.
  split; intros H.
  - destruct (Qle_bool 90 s); [cbn; lia|].
    destruct (Qle_bool 70 s) eqn:E; [cbn; lia|].
    apply Qle_bool_false in E. lra.
  - destruct (Qle_bool 90 s); [cbn; lia|].
    destruct (Qle_bool 70 s); [cbn; lia|].
    destruct (Qle_bool 40 s) eqn:E; [cbn; lia|].
    apply Qle_bool_false in E. lra.
Qed.

Section Floors.
Context {parser : SqlParse}.

Lemma parsed_level (q : string) :
  sqlparse_parse q <> 0%nat ->
  risk_level (assess_query_risk q)
  = _determine_risk_level (risk_score (assess_query_risk q)).
Proof. intros Hp. exact (proj2 (proj2 (parsed_fields q Hp))). Qed.

(** A parsed query that names xp_cmdshell is counted twice, as a
    dangerous pattern (30) and as a system command (40): its score is at
    least 70, so its level is HIGH or CRITICAL; it is unsafe and the
    pattern is listed. *)
Theorem shell_procedure_is_high_risk (q : string) :
  sqlparse_parse q <> 0%nat ->
  search pat_xp_cmdshell q = true ->
  70 <= risk_score (assess_query_risk q)
  /\ (2 <= rank (risk_level (assess_query_risk q)))%nat
  /\ is_safe (assess_query_risk q) = false
  /\ In "xp_cmdshell" (dangerous_operations (assess_query_risk q)).
Proof.
  intros Hp Hs.
  assert (Hsys : _contains_system_commands q = true).
  { apply (any_search_In _ pat_xp_cmdshell); [|exact Hs].
    cbn. do 4 right. now left. }
  assert (Hin : In ("xp_cmdshell", pat_xp_cmdshell) dangerous_patterns)
    by (cbn; do 9 right; now left).
  pose proof (matching_count q _ _ Hin Hs) as Hn.
  assert (Hscore : 70 <= risk_score (assess_query_risk q)).
  { rewrite (parsed_score q Hp). pose proof (complexity_range q) as [C0 _].
    apply Q.min_glb; [|lra]. unfold other_weights, weight_if. rewrite Hsys.
    destruct (_is_data_modification_query q), (_is_schema_change_query q),
      (_has_missing_where_clause q), (_has_wildcard_select q); lra. }
  destruct (parsed_fields q Hp) as (Hd & Hsafe & _).
  split; [exact Hscore|split; [|split]].
  - rewrite (parsed_level q Hp). now apply level_at_least.
  - rewrite Hsafe, Hsys. now rewrite andb_false_r.
  - rewrite Hd. apply (in_map fst _ ("xp_cmdshell", pat_xp_cmdshell)).
    apply filter_In. split; [exact Hin|exact Hs].
Qed.

(** A parsed DROP TABLE is counted twice, as a dangerous pattern (30) and
    as a schema change (25): its score is at least 55, so its level is
    MEDIUM or above; it is unsafe and warned about. *)
Theorem drop_table_is_at_least_medium (q : string) :
  sqlparse_parse q <> 0%nat ->
  search pat_drop_table q = true ->
  55 <= risk_score (assess_query_risk q)
  /\ (1 <= rank (risk_level (assess_query_risk q)))%nat
  /\ is_safe (assess_query_risk q) = false
  /\ In "Schema modification operation detected"
        (warnings (assess_query_risk q)).
Proof.
  intros Hp Hs.
  assert (Hsc : _is_schema_change_query q = true).
  { apply (any_search_In _ pat_drop_table); [|exact Hs].
    cbn. do 2 right. now left. }
  assert (Hin : In ("drop_table", pat_drop_table) dangerous_patterns)
    by (cbn; now left).
  pose proof (matching_count q _ _ Hin Hs) as Hn.
  assert (Hscore : 55 <= risk_score (assess_query_risk q)).
  { rewrite (parsed_score q Hp). pose proof (complexity_range q) as [C0 _].
    apply Q.min_glb; [|lra]. unfold other_weights, weight_if. rewrite Hsc.
    destruct (_is_data_modification_query q), (_contains_system_commands q),
      (_has_missing_where_clause q), (_has_wildcard_select q); lra. }
  destruct (parsed_fields q Hp) as (Hd & Hsafe & _).
  split; [exact Hscore|split; [|split]].
  - rewrite (parsed_level q Hp). apply level_at_least. lra.
  - rewrite Hsafe.
    assert (In ("drop_table", pat_drop_table) (matching q)) as H
      by (apply filter_In; split; [exact Hin|exact Hs]).
    destruct (matching q); [destruct H|reflexivity].
  - rewrite (parsed_warnings q Hp), Hsc. unfold note at 2.
    rewrite !in_app_iff. do 2 right. left. now left.
Qed.

Lemma filter_names_NoDup (f : string * regex -> bool)
    (l : list (string * regex)) :
  NoDup (map fst l) -> NoDup (map fst (filter f l)).
Proof.
  induction l as [|e l IH]; cbn [map filter]; intros H; [constructor|].
  inversion H as [|? ? Hnot Hl]; subst.
  destruct (f e); [|now apply IH]. cbn [map]. constructor; [|now apply IH].
  intros Hin. apply Hnot. apply in_map_iff in Hin as (x & Hx & Hin).
  apply filter_In in Hin as [Hin _]. rewrite <- Hx. now apply in_map.
Qed.

Lemma table_names_NoDup : NoDup (map fst dangerous_patterns).
Proof.
  cbn. repeat (constructor; [cbn; intros H;
    repeat (destruct H as [H|H]; [discriminate|]); exact H|]).
  constructor.
Qed.

(** The dangerous operations of an assessment are names of the pattern
    table, each at most once, so at most ten; and every one of them has
    its warning. *)
Theorem dangerous_operations_are_distinct_table_names (q : string) :
  NoDup (dangerous_operations (assess_query_risk q))
  /\ incl (dangerous_operations (assess_query_risk q)) table_names
  /\ (List.length (dangerous_operations (assess_query_risk q)) <= 10)%nat
  /\ (List.length (dangerous_operations (assess_query_risk q))
      <= List.length (warnings (assess_query_risk q)))%nat.
Proof.
  destruct (Nat.eq_dec (sqlparse_parse q) 0) as [Hz|Hp].
  - unfold assess_query_risk. rewrite Hz.
    cbn [dangerous_operations warnings List.length].
    split; [constructor|split; [intros x []|split; lia]].
  - destruct (parsed_fields q Hp) as (Hd & _ & _).
    rewrite Hd, (parsed_warnings q Hp).
    assert (Hincl : incl (map fst (matching q)) table_names).
    { intros x Hx. apply in_map_iff in Hx as (e & <- & He).
      apply filter_In in He as [He _]. now apply in_map. }
    assert (Hnd : NoDup (map fst (matching q)))
      by (apply filter_names_NoDup, table_names_NoDup).
    split; [exact Hnd|split; [exact Hincl|split]].
    + apply (NoDup_incl_length Hnd Hincl).
    + rewrite length_app, !length_map. lia.
Qed.
End Floors.

Lemma shell_procedure_is_high_risk_witness :
  70 <= risk_score (@assess_query_risk nonblank_parser "EXEC xp_cmdshell 'dir'").
Proof.
  refine (proj1 (@shell_procedure_is_high_risk nonblank_parser
                   "EXEC xp_cmdshell 'dir'" _ _)).
  - vm_compute. discriminate.
  - vm_compute. reflexivity.
Defined.

Lemma drop_table_is_at_least_medium_witness :
  55 <= risk_score (@assess_query_risk nonblank_parser "DROP TABLE users").
Proof.
  refine (proj1 (@drop_table_is_at_least_medium nonblank_parser
                   "DROP TABLE users" _ _)).
  - vm_compute. discriminate.
  - vm_compute. reflexivity.
Defined.

End VerdictFacts.

(* ===================================================================== *)
(** * The cache of the multiplexer *)
(* ===================================================================== *)

Module CacheFacts.
Import Text Re Models RiskChecker Spec Py DbTool Service Notions Inv
  Interleaving Examples MoreExamples ToolFacts.

Section StepFacts.
Context {E : Type} {environment : Environment E}.
Variable R : @World E -> @World E -> Prop.
Hypothesis R_refl : forall w, R w w.
Hypothesis R_trans : forall w1 w2 w3, R w1 w2 -> R w2 w3 -> R w1 w3.

Lemma steps_ret {A} (a : A) : steps R (ret a).
Proof. intros w. apply R_refl. Qed.

Lemma steps_raise {A} (e : exn) : steps R (@raise World A e).
Proof. intros w. apply R_refl. Qed.

Lemma steps_gets {A} (f : World -> A) : steps R (gets f).
Proof. intros w. apply R_refl. Qed.

Lemma steps_bind {A B} (m : M World A) (f : A -> M World B) :
  steps R m -> (forall a, steps R (f a)) -> steps R (bind m f).
Proof.
  intros Hm Hf w. unfold bind. specialize (Hm w).
  destruct (m w) as [[a|e] w1]; cbn [snd] in *; [|exact Hm].
  eapply R_trans; [exact Hm|apply Hf].
Qed.

Lemma steps_try_except {A} (m : M World A) (h : exn -> M World A) :
  steps R m -> (forall e, steps R (h e)) -> steps R (try_except m h).
Proof.
  intros Hm Hh w. unfold try_except. specialize (Hm w).
  destruct (m w) as [[a|e] w1]; cbn [snd] in *; [exact Hm|].
  eapply R_trans; [exact Hm|apply Hh].
Qed.

Lemma steps_try_finally {A} (m : M World A) (f : M World unit) :
  steps R m -> steps R f -> steps R (try_finally m f).
Proof.
  intros Hm Hf w. unfold try_finally. specialize (Hm w).
  destruct (m w) as [[a|e] w1]; cbn [snd] in *;
    specialize (Hf w1); destruct (f w1) as [[[]|e'] w2]; cbn [snd] in *;
    eapply R_trans; eassumption.
Qed.

Lemma steps_for_each {A} (l : list A) (body : A -> M World unit) :
  (forall x, steps R (body x)) -> steps R (for_each l body).
Proof.
  intros Hb. induction l as [|x l IH]; cbn [for_each].
  - apply steps_ret.
  - apply steps_bind; [apply Hb|intros _; exact IH].
Qed.

Lemma steps_if {A} (c : bool) (m1 m2 : M World A) :
  steps R m1 -> steps R m2 -> steps R (if c then m1 else m2).
Proof. destruct c; auto. Qed.
End StepFacts.

Section QuietFacts.
Context {E : Type} {environment : Environment E}.

Lemma quiet_refl (w : @World E) : quiet_step w w.
Proof. split; reflexivity. Qed.

Lemma quiet_trans (w1 w2 w3 : @World E) :
  quiet_step w1 w2 -> quiet_step w2 w3 -> quiet_step w1 w3.
Proof. intros [A1 B1] [A2 B2]. split; congruence. Qed.

Lemma quiet_env {A} (f : E -> outcome A * E) : steps quiet_step (env f).
Proof. intros w. unfold env. destruct (f (backend w)). split; reflexivity. Qed.

Lemma quiet_now : steps quiet_step now.
Proof.
  intros w. unfold now. destruct (time_time (backend w)). split; reflexivity.
Qed.

Lemma quiet_log (c : Connector) (m : method) :
  steps quiet_step (@log E c m).
Proof. intros w. split; reflexivity. Qed.

Ltac quiet :=
  repeat first
    [ apply quiet_env | apply quiet_now | apply quiet_log
    | apply (steps_ret quiet_step quiet_refl)
    | apply (steps_raise quiet_step quiet_refl)
    | apply (steps_gets quiet_step quiet_refl)
    | apply (steps_bind quiet_step quiet_trans); [|intros ?]
    | apply (steps_try_except quiet_step quiet_trans); [|intros ?]
    | apply (steps_if quiet_step)
    | match goal with
      | |- steps _ (match ?x with _ => _ end) => destruct x
      end ].

Lemma quiet_connect (c : Connector) : steps quiet_step (connect c).
Proof. unfold connect. quiet. Qed.

Lemma quiet_disconnect (c : Connector) : steps quiet_step (disconnect c).
Proof. unfold disconnect. quiet. Qed.

Lemma quiet_close (c : Connector) : steps quiet_step (close c).
Proof. unfold close. quiet. apply quiet_disconnect. Qed.

Lemma quiet_c_execute (c : Connector) (q : string) (p : parameters_t) :
  steps quiet_step (c_execute_query c q p).
Proof. unfold c_execute_query, _execute, no_handle. quiet. Qed.

Lemma quiet_c_validate (c : Connector) (q : string) :
  steps quiet_step (c_validate_syntax c q).
Proof. unfold c_validate_syntax, no_handle. quiet. Qed.

Lemma quiet_c_test (c : Connector) : steps quiet_step (c_test_connection c).
Proof. unfold c_test_connection, no_handle. quiet. Qed.
End QuietFacts.

Section ResolveMore.
Context {E : Type} {environment : Environment E}.

(** Every way [_get_connector] can end. *)
Lemma resolve_outcome (d : DatabaseConnection) (w : World) :
  match _get_connector d w with
  | (Return c, w1) =>
      (dict_get (_conn_key d) (_connectors w) = Some c /\ w1 = w)
      \/ (dict_get (_conn_key d) (_connectors w) = None
          /\ _connector_types (database_type d) <> None
          /\ (exists h, c = {| oid := next_oid w; connection := d;
                               _is_connected := true;
                               _connection := Some h |})
          /\ _connectors w1 = (_connectors w ++ [(_conn_key d, c)])%list
          /\ next_oid w1 = S (next_oid w)
          /\ calls w1 = (calls w ++ [Call (next_oid w) m_connect])%list)
  | (Raise e, w1) =>
      dict_get (_conn_key d) (_connectors w) = None
      /\ _connectors w1 = _connectors w
      /\ next_oid w <= next_oid w1
      /\ (_connector_types (database_type d) = None ->
          w1 = w
          /\ e = mk_exn ValueError
                   ("Unsupported database type: "
                    ++ format_database_type (database_type d)))
  end.
Proof.
  unfold _get_connector, bind, gets.
  destruct (dict_get (_conn_key d) (_connectors w)) as [c0|] eqn:G.
  - cbn. left. split; reflexivity.
  - destruct (_connector_types (database_type d)) as [path|] eqn:T.
    + unfold env at 1.
      destruct (import_class path (backend w)) as [[[]|e] e1].
      * unfold construct, connect, bind, log, modify, try_except, env, ret,
          raise.
        cbn [backend with_backend _connectors next_oid calls oid connection].
        destruct (driver_connect d e1) as [[h|e] e2];
          cbn [backend with_backend _connectors next_oid calls oid connection
               with_connectors with_link].
        -- right. rewrite (dict_set_absent _ _ _ G).
           split; [reflexivity|split; [discriminate|]].
           split; [exists h; reflexivity|]. repeat split; reflexivity.
        -- destruct (is_driver_error e); cbn;
             (split; [reflexivity|split; [reflexivity|split; [lia|]]]);
             intros; discriminate.
      * cbn. split; [reflexivity|split; [reflexivity|split; [lia|]]].
        intros; discriminate.
    + cbn. split; [reflexivity|split; [reflexivity|split; [lia|]]].
      intros _. split; reflexivity.
Qed.

Lemma dict_get_absent_keys {V} (k : string) (d : dict V) :
  dict_get k d = None <-> ~ In k (map fst d).
Proof.
  induction d as [|[k0 v0] rest IH]; cbn; [tauto|].
  destruct (String.eqb k k0) eqn:K.
  - apply String.eqb_eq in K. subst. split; [discriminate|]. intros H.
    elim H. now left.
  - apply String.eqb_neq in K. rewrite IH. split.
    + intros H [H'|H']; [congruence|tauto].
    + intros H H'. apply H. now right.
Qed.

Lemma entry_ok_mono (n m : nat) (kv : string * Connector) :
  n <= m -> entry_ok n kv -> entry_ok m kv.
Proof. intros Hnm (A & B & C & D & F). repeat split; auto. lia. Qed.

Lemma cache_ok_quiet (w w' : @World E) :
  _connectors w' = _connectors w -> next_oid w <= next_oid w' ->
  cache_ok w -> cache_ok w'.
Proof.
  intros Hc Hn (F & N1 & N2). unfold cache_ok. rewrite Hc.
  split; [|split; assumption].
  eapply Forall_impl; [|exact F]. intros kv. now apply entry_ok_mono.
Qed.

Lemma ok_refl (w : @World E) : ok_step w w.
Proof. intros H; exact H. Qed.

Lemma ok_trans (w1 w2 w3 : @World E) :
  ok_step w1 w2 -> ok_step w2 w3 -> ok_step w1 w3.
Proof. unfold ok_step. auto. Qed.

Lemma quiet_is_ok {A} (m : M (@World E) A) :
  steps quiet_step m -> steps ok_step m.
Proof.
  intros H w Hok. destruct (H w) as [Hc Hn].
  apply (cache_ok_quiet w); [exact Hc|lia|exact Hok].
Qed.

Lemma ok_get_connector (d : DatabaseConnection) :
  steps ok_step (_get_connector d).
Proof.
  intros w Hok. pose proof (resolve_outcome d w) as H.
  destruct (_get_connector d w) as [[c|e] w1]; cbn [snd].
  - destruct H as [[_ ->]|(G & T & (h & Hc) & Hcache & Hn & _)];
      [exact Hok|].
    destruct Hok as (F & N1 & N2). unfold cache_ok. rewrite Hcache, Hn.
    split; [|split].
    + apply Forall_app. split.
      * eapply Forall_impl; [|exact F]. intros kv.
        apply entry_ok_mono. lia.
      * constructor; [|constructor]. subst c. unfold entry_ok. cbn.
        repeat split; auto. now exists h.
    + rewrite map_app. cbn [map fst].
      apply NoDup_app; [exact N1|repeat constructor; intros []|].
      intros k Hin [<-|[]]. now apply dict_get_absent_keys in G.
    + rewrite map_app. cbn [map snd].
      apply NoDup_app; [exact N2|repeat constructor; intros []|].
      intros o Hin [<-|[]]. subst c. cbn [oid] in Hin.
      apply in_map_iff in Hin as (kv & Hkv & Hin).
      rewrite Forall_forall in F. destruct (F kv Hin) as (_&_&_&_&Hlt). lia.
  - destruct H as (_ & Hc & Hn & _). now apply (cache_ok_quiet w).
Qed.

Lemma dict_remove_incl {V} (k : string) (d : dict V) :
  incl (dict_remove k d) d.
Proof.
  induction d as [|[k0 v0] rest IH]; cbn; [intros x []|].
  destruct (String.eqb k k0).
  - intros x Hx. now right.
  - intros x [Hx|Hx]; [now left|right; now apply IH].
Qed.

Lemma dict_remove_NoDup {V A} (f : string * V -> A) (k : string)
    (d : dict V) :
  NoDup (map f d) -> NoDup (map f (dict_remove k d)).
Proof.
  induction d as [|[k0 v0] rest IH]; cbn; [auto|]. intros H.
  inversion H as [|? ? Hnot Hrest]; subst.
  destruct (String.eqb k k0); [exact Hrest|]. cbn. constructor; [|auto].
  intros Hin. apply Hnot. apply in_map_iff in Hin as (x & Hx & Hin).
  rewrite <- Hx. apply in_map. now apply (dict_remove_incl k rest).
Qed.

Lemma ok_del_connector (k : string) : steps ok_step (@del_connector E k).
Proof.
  intros w (F & N1 & N2). unfold del_connector, bind, gets, modify.
  destruct (dict_get k (_connectors w)); cbn [snd raise];
    [|split; [exact F|split; assumption]].
  unfold cache_ok, with_connectors. cbn [_connectors next_oid].
  split; [|split; now apply dict_remove_NoDup].
  rewrite Forall_forall in *. intros kv Hin. apply F.
  now apply (dict_remove_incl k).
Qed.
End ResolveMore.

Ltac quiet :=
  repeat first
    [ apply quiet_env | apply quiet_now | apply quiet_log
    | apply quiet_connect | apply quiet_disconnect | apply quiet_close
    | apply quiet_c_execute | apply quiet_c_validate | apply quiet_c_test
    | apply (steps_ret quiet_step quiet_refl)
    | apply (steps_raise quiet_step quiet_refl)
    | apply (steps_gets quiet_step quiet_refl)
    | apply (steps_bind quiet_step quiet_trans); [|intros ?]
    | apply (steps_try_except quiet_step quiet_trans); [|intros ?]
    | apply (steps_if quiet_step)
    | match goal with
      | |- steps _ (match ?x with _ => _ end) => destruct x
      end ].

Section Readers.
Context {E : Type} {environment : Environment E} {catalogue : SchemaDriver E}.

Lemma quiet_c_get_schema (c : Connector) : steps quiet_step (c_get_schema c).
Proof. unfold c_get_schema, no_handle. quiet. Qed.

Lemma quiet_c_list_tables (c : Connector) (s : option string) :
  steps quiet_step (c_list_tables c s).
Proof. unfold c_list_tables, no_handle. quiet. Qed.
End Readers.

(** Composing steps under a reflexive, transitive relation, with the
    pieces that leave the cache alone discharged on the way. *)
Ltac compose R Rrefl Rtrans Rquiet leaf :=
  repeat first
    [ leaf
    | apply Rquiet; solve [quiet | apply quiet_c_get_schema
                                 | apply quiet_c_list_tables]
    | apply (steps_ret R Rrefl)
    | apply (steps_raise R Rrefl)
    | apply (steps_bind R Rtrans); [|intros ?]
    | apply (steps_try_except R Rtrans); [|intros ?]
    | apply (steps_try_finally R Rtrans)
    | apply (steps_for_each R Rrefl Rtrans); intros ?
    | apply (steps_if R)
    | match goal with
      | |- steps _ (match ?x with _ => _ end) => destruct x
      | |- steps _ (let _ := _ in _) => cbv zeta
      end ].

Section Invariant.
Context {E : Type} {environment : Environment E} {catalogue : SchemaDriver E}
        {parser : SqlParse}.

Ltac ok :=
  compose (@ok_step E) (@ok_refl E) (@ok_trans E) (@quiet_is_ok E)
    ltac:(first [apply ok_get_connector | apply ok_del_connector]).

Lemma ok_execute_query (q : DatabaseQuery) (vs : bool) :
  steps ok_step (execute_query q vs).
Proof.
  unfold execute_query, execute_query_body, run_on_connector. ok.
Qed.

Lemma ok_validate_query (text : string) (d : DatabaseConnection) :
  steps ok_step (validate_query text d).
Proof. unfold validate_query, validate_query_body. ok. Qed.

Lemma ok_test_connection (d : DatabaseConnection) :
  steps ok_step (test_connection d).
Proof. unfold test_connection, test_connection_body. ok. Qed.

Lemma ok_close_connection (d : DatabaseConnection) :
  steps ok_step (close_connection d).
Proof.
  unfold close_connection. intros w.
  unfold bind at 1, gets. 
  destruct (dict_get (_conn_key d) (_connectors w)); [|apply ok_refl].
  revert w. change (steps ok_step (close c ;; del_connector (_conn_key d))%py).
  ok.
Qed.

Lemma ok_close_all : steps ok_step (@close_all_connections E _).
Proof.
  unfold close_all_connections. intros w. unfold bind at 1, gets.
  generalize (_connectors w) as items. intros items. revert w.
  change (steps ok_step
            (for_each items
               (fun item =>
                  try_finally (close (snd item) ;; ret tt)%py
                    (del_connector (fst item))))).
  ok.
Qed.

Lemma ok_get_database_schema (d : DatabaseConnection) :
  steps ok_step (get_database_schema d).
Proof. unfold get_database_schema. ok. Qed.

Lemma ok_list_tables (d : DatabaseConnection) (s : option string) :
  steps ok_step (list_tables d s).
Proof. unfold list_tables. ok. Qed.

Lemma cache_ok_init (e : E) : cache_ok (init e).
Proof. repeat split; constructor. Qed.

(** Every operation of the tool keeps the cache well formed, whether it
    returns or raises: each entry is filed under the key of its own
    descriptor, for a backend of the connector table, connected and with
    a native handle, and no key and no connector object occurs twice. *)
Theorem cache_invariant_is_kept (w : World) :
  cache_ok w ->
  (forall q vs, cache_ok (after (execute_query q vs) w))
  /\ (forall text d, cache_ok (after (validate_query text d) w))
  /\ (forall d, cache_ok (after (test_connection d) w))
  /\ (forall d, cache_ok (after (get_database_schema d) w))
  /\ (forall d s, cache_ok (after (list_tables d s) w))
  /\ (forall d, cache_ok (after (close_connection d) w))
  /\ cache_ok (after close_all_connections w).
Proof.
  intros Hok. unfold after.
  split; [|split; [|split; [|split; [|split; [|split]]]]]; intros.
  - now apply ok_execute_query.
  - now apply ok_validate_query.
  - now apply ok_test_connection.
  - now apply ok_get_database_schema.
  - now apply ok_list_tables.
  - now apply ok_close_connection.
  - now apply ok_close_all.
Qed.
End Invariant.

Lemma cache_invariant_is_kept_witness :
  cache_ok (@init stub_state stub0)
  /\ cache_ok (after (@execute_query _ healthy nonblank_parser
                        (ask "SELECT 1" orders) true) (init stub0)).
Proof.
  assert (H : cache_ok (@init stub_state stub0))
    by (repeat split; constructor).
  split; [exact H|].
  apply (proj1 (@cache_invariant_is_kept _ healthy empty_catalogue
                  nonblank_parser (init stub0) H)).
Defined.

Section Growth.
Context {E : Type} {environment : Environment E} {catalogue : SchemaDriver E}
        {parser : SqlParse}.

Lemma own_refl d (w : @World E) : own_entry_step d w w.
Proof. now left. Qed.

Lemma own_trans d (w1 w2 w3 : @World E) :
  own_entry_step d w1 w2 -> own_entry_step d w2 w3 -> own_entry_step d w1 w3.
Proof.
  intros [H1|(G1 & c1 & Hc1 & H1)] [H2|(G2 & c2 & Hc2 & H2)].
  - left. congruence.
  - right. rewrite H1 in G2. split; [exact G2|]. exists c2. split; [exact Hc2|].
    congruence.
  - right. split; [exact G1|]. exists c1. split; [exact Hc1|]. congruence.
  - exfalso. rewrite H1 in G2.
    assert (dict_get (_conn_key d)
              (_connectors w1 ++ [(_conn_key d, c1)])%list = Some c1) as X.
    { rewrite <- (dict_set_absent _ c1 _ G1). apply dict_get_set_same. }
    congruence.
Qed.

Lemma quiet_is_own d {A} (m : M (@World E) A) :
  steps quiet_step m -> steps (own_entry_step d) m.
Proof. intros H w. left. apply H. Qed.

Lemma own_get_connector d : steps (own_entry_step d) (_get_connector d).
Proof.
  intros w. pose proof (resolve_outcome d w) as H.
  destruct (_get_connector d w) as [[c|e] w1]; cbn [snd].
  - destruct H as [[_ ->]|(G & _ & (h & Hc) & Hcache & _)]; [now left|].
    right. split; [exact G|]. exists c. split; [now subst c|exact Hcache].
  - left. apply H.
Qed.

Ltac own d :=
  compose (@own_entry_step E d) (@own_refl d) (@own_trans d)
    (@quiet_is_own d) ltac:(apply own_get_connector).

(** A call that runs from its start to its end with no other task of
    the tool in between leaves the cache as it is, or appends one
    entry, under the key of the descriptor it was given, which was
    absent before.  What an interleaved resolution does is in
    [interleaved_resolutions_lose_a_connector]. *)
Lemma uninterleaved_call_adds_own_entry (w : World) :
  (forall q vs,
      own_entry_step (database_connection q) w (after (execute_query q vs) w))
  /\ (forall text d, own_entry_step d w (after (validate_query text d) w))
  /\ (forall d, own_entry_step d w (after (test_connection d) w))
  /\ (forall d, own_entry_step d w (after (get_database_schema d) w))
  /\ (forall d s, own_entry_step d w (after (list_tables d s) w)).
Proof.
  unfold after. split; [|split; [|split; [|split]]]; intros.
  - revert w. change (steps (own_entry_step (database_connection q))
                        (execute_query q vs)).
    unfold execute_query, execute_query_body, run_on_connector.
    own (database_connection q).
  - revert w. change (steps (own_entry_step d) (validate_query text d)).
    unfold validate_query, validate_query_body. own d.
  - revert w. change (steps (own_entry_step d) (test_connection d)).
    unfold test_connection, test_connection_body. own d.
  - revert w. change (steps (own_entry_step d) (get_database_schema d)).
    unfold get_database_schema. own d.
  - revert w. change (steps (own_entry_step d) (list_tables d s)).
    unfold list_tables. own d.
Qed.

(** A resolution that raises caches nothing: the cache is as before and
    still has no entry for the key, so a connector whose connect failed
    is never served later.  For a backend outside the connector table
    nothing at all happened, and the error is a ValueError that names
    the type. *)
Theorem failed_resolution_caches_nothing (d : DatabaseConnection)
    (w w1 : World) (e : exn) :
  _get_connector d w = (Raise e, w1) ->
  _connectors w1 = _connectors w
  /\ dict_get (_conn_key d) (_connectors w1) = None
  /\ (_connector_types (database_type d) = None ->
      w1 = w
      /\ e_class e = ValueError
      /\ e_str e = "Unsupported database type: "
                   ++ format_database_type (database_type d)).
Proof.
  intros H. pose proof (resolve_outcome d w) as R. rewrite H in R.
  destruct R as (G & Hc & _ & Hu). split; [exact Hc|split].
  - now rewrite Hc.
  - intros T. destruct (Hu T) as [-> ->]. repeat split.
Qed.
End Growth.

Section Race.
Context {E : Type} {environment : Environment E}.

Lemma resolve_is_get_connector (d : DatabaseConnection) (w : World) :
  resolve d w = _get_connector d w.
Proof.
  unfold resolve, resolve_begin, resolve_end, _get_connector, bind, gets.
  destruct (dict_get (_conn_key d) (_connectors w)); [reflexivity|].
  destruct (_connector_types (database_type d)); [|reflexivity].
  destruct (env (import_class s) w) as [[[]|e] w0]; [|reflexivity].
  destruct (construct d w0) as [[c|e] w1]; [|reflexivity].
  destruct (connect c w1) as [[c'|e] w2]; reflexivity.
Qed.

Lemma begin_miss (d : DatabaseConnection) (w w1 : World) (c : Connector) :
  resolve_begin d w = (Return (inr c), w1) ->
  dict_get (_conn_key d) (_connectors w) = None
  /\ _connector_types (database_type d) <> None
  /\ (exists h, c = {| oid := next_oid w; connection := d;
                       _is_connected := true; _connection := Some h |})
  /\ _connectors w1 = _connectors w
  /\ next_oid w1 = S (next_oid w)
  /\ calls w1 = (calls w ++ [Call (next_oid w) m_connect])%list.
Proof.
  unfold resolve_begin, bind, gets.
  destruct (dict_get (_conn_key d) (_connectors w)); [discriminate|].
  destruct (_connector_types (database_type d)) as [path|]; [|discriminate].
  unfold env at 1.
  destruct (import_class path (backend w)) as [[[]|e] e1]; [|discriminate].
  unfold construct, connect, bind, log, modify, try_except, env, ret, raise.
  cbn [backend with_backend _connectors next_oid calls oid connection].
  destruct (driver_connect d e1) as [[h|e] e2].
  - intros [= <- <-]. cbn. split; [reflexivity|split; [discriminate|]].
    split; [now exists h|]. repeat split.
  - destruct (is_driver_error e); discriminate.
Qed.

Lemma begin_hit (d : DatabaseConnection) (w w1 : World) (c : Connector) :
  resolve_begin d w = (Return (inl c), w1) ->
  dict_get (_conn_key d) (_connectors w) = Some c.
Proof.
  unfold resolve_begin, bind, gets.
  destruct (dict_get (_conn_key d) (_connectors w)) as [c0|].
  - now intros [= <- _].
  - destruct (_connector_types (database_type d)) as [path|]; [|discriminate].
    unfold env at 1.
    destruct (import_class path (backend w)) as [[[]|e] e1]; [|discriminate].
    destruct (construct d _) as [[c1|e] w2]; [|discriminate].
    destruct (connect c1 w2) as [[c2|e] w3]; discriminate.
Qed.

Lemma dict_set_appended {V} (k : string) (v v' : V) (d : dict V) :
  dict_get k d = None ->
  dict_set k v' (d ++ [(k, v)])%list = (d ++ [(k, v')])%list.
Proof.
  induction d as [|[k0 v0] rest IH]; cbn.
  - now rewrite String.eqb_refl.
  - destruct (String.eqb k k0); [discriminate|]. intros H. now rewrite IH.
Qed.

(** [_get_connector] is its two halves run one after the other.  When
    a second resolution of the same key runs between the halves of a
    first that missed the cache, it misses as well: both connect,
    each a connector object of its own.  The first task files its
    connector; the second then replaces that entry with its own.
    The cache ends as before with one entry added, the connector of
    the second task, and it is still well formed; the connector of
    the first task is connected and in no entry, so no operation of
    the tool will close it. *)
Theorem interleaved_resolutions_lose_a_connector (d : DatabaseConnection) :
  (forall w : World, resolve d w = _get_connector d w)
  /\ (forall (w w1 w2 : World) (cA : Connector) (r : Connector + Connector),
        cache_ok w ->
        resolve_begin d w = (Return (inr cA), w1) ->
        resolve_begin d w1 = (Return r, w2) ->
        exists cB,
          r = inr cB
          /\ oid cA <> oid cB
          /\ _is_connected cA = true /\ _is_connected cB = true
          /\ calls w2
             = (calls w
                ++ [Call (oid cA) m_connect; Call (oid cB) m_connect])%list
          /\ let w3 := after (resolve_end d cA) w2 in
             let w4 := after (resolve_end d cB) w3 in
             dict_get (_conn_key d) (_connectors w3) = Some cA
             /\ _connectors w4 = (_connectors w ++ [(_conn_key d, cB)])%list
             /\ calls w4 = calls w2
             /\ (forall kv, In kv (_connectors w4) -> oid (snd kv) <> oid cA)
             /\ cache_ok w4).
Proof.
  split; [intros w; apply resolve_is_get_connector|].
  intros w w1 w2 cA r Hok HA HB.
  destruct (begin_miss d w w1 cA HA) as (G & T & (hA & EA) & C1 & N1 & L1).
  destruct r as [c|cB].
  { apply begin_hit in HB. rewrite C1 in HB. congruence. }
  destruct (begin_miss d w1 w2 cB HB) as (_ & _ & (hB & EB) & C2 & N2 & L2).
  exists cB. split; [reflexivity|].
  assert (OA : oid cA = next_oid w) by now rewrite EA.
  assert (OB : oid cB = S (next_oid w)) by now rewrite EB, N1.
  split; [lia|]. split; [now rewrite EA|]. split; [now rewrite EB|].
  split; [rewrite L2, L1, N1, OA, OB, <- app_assoc; reflexivity|].
  intros w3 w4.
  assert (H3 : _connectors w3 = (_connectors w ++ [(_conn_key d, cA)])%list).
  { subst w3. unfold after, resolve_end, bind, modify, ret.
    cbn [snd _connectors with_connectors]. rewrite C2, C1.
    now apply dict_set_absent. }
  assert (H4 : _connectors w4 = (_connectors w ++ [(_conn_key d, cB)])%list).
  { subst w4. unfold after, resolve_end, bind, modify, ret.
    cbn [snd _connectors with_connectors]. fold (_connectors w3).
    rewrite H3. now apply dict_set_appended. }
  assert (N4 : next_oid w4 = S (S (next_oid w))).
  { subst w4 w3. unfold after, resolve_end, bind, modify, ret.
    cbn [snd next_oid with_connectors]. now rewrite N2, N1. }
  destruct Hok as (F & K1 & K2).
  assert (Hold : forall kv, In kv (_connectors w) -> oid (snd kv) < next_oid w).
  { rewrite Forall_forall in F. intros kv Hin. apply (F kv Hin). }
  split; [|split; [exact H4|split; [reflexivity|split]]].
  - rewrite H3, <- (dict_set_absent _ _ _ G). apply dict_get_set_same.
  - rewrite H4. intros kv Hin. apply in_app_or in Hin as [Hin|[<-|[]]].
    + apply Hold in Hin. lia.
    + cbn [snd]. lia.
  - unfold cache_ok. rewrite H4, N4. split; [|split].
    + apply Forall_app. split.
      * eapply Forall_impl; [|exact F]. intros kv. apply entry_ok_mono. lia.
      * constructor; [|constructor]. unfold entry_ok. cbn [fst snd].
        rewrite OB, EB. cbn [connection _is_connected _connection].
        repeat split; auto. now exists hB.
    + rewrite map_app. cbn [map fst].
      apply NoDup_app; [exact K1|repeat constructor; intros []|].
      intros k Hin [<-|[]]. now apply dict_get_absent_keys in G.
    + rewrite map_app. cbn [map snd].
      apply NoDup_app; [exact K2|repeat constructor; intros []|].
      intros o Hin [<-|[]].
      apply in_map_iff in Hin as (kv & Hkv & Hin). apply Hold in Hin. lia.
Qed.
End Race.

Lemma interleaved_resolutions_lose_a_connector_witness :
  let w1 := after (@resolve_begin _ healthy orders) (init stub0) in
  let w2 := after (@resolve_begin _ healthy orders) w1 in
  let w4 := after (resolve_end orders second_connector)
              (after (resolve_end orders live_connector) w2) in
  @resolve_begin _ healthy orders (init stub0)
  = (Return (inr live_connector), w1)
  /\ @resolve_begin _ healthy orders w1 = (Return (inr second_connector), w2)
  /\ _connectors w4 = [(_conn_key orders, second_connector)]
  /\ calls w4 = [Call 0 m_connect; Call 1 m_connect].
Proof.
  intros w1 w2 w4.
  assert (HA : @resolve_begin _ healthy orders (init stub0)
               = (Return (inr live_connector), w1))
    by (vm_compute; reflexivity).
  assert (HB : @resolve_begin _ healthy orders w1
               = (Return (inr second_connector), w2))
    by (vm_compute; reflexivity).
  assert (Hok : cache_ok (@init stub_state stub0))
    by (repeat split; constructor).
  split; [exact HA|split; [exact HB|]].
  destruct (proj2 (@interleaved_resolutions_lose_a_connector _ healthy orders)
              (init stub0) w1 w2 live_connector (inr second_connector)
              Hok HA HB)
    as (cB & Hr & _ & _ & _ & Hcalls & _ & Hcache & _).
  injection Hr as <-. split; [exact Hcache|exact Hcalls].
Defined.

Lemma failed_resolution_caches_nothing_witness :
  let e := {| e_class := ValueError;
              e_str := "Unsupported database type: DatabaseType.SQLITE" |} in
  @_get_connector _ healthy local_file (init stub0) = (Raise e, init stub0)
  /\ dict_get (_conn_key local_file) (_connectors (@init stub_state stub0))
     = None
  /\ e_str e
     = "Unsupported database type: "
       ++ format_database_type (database_type local_file).
Proof.
  intros e.
  assert (H : @_get_connector _ healthy local_file (init stub0)
              = (Raise e, init stub0))
    by (vm_compute; reflexivity).
  split; [exact H|].
  destruct (@failed_resolution_caches_nothing _ healthy local_file
              (init stub0) (init stub0) e H) as (_ & Hg & Hu).
  split; [exact Hg|].
  exact (proj2 (proj2 (Hu eq_refl))).
Defined.

Section Silent.
Context {E : Type} {environment : Environment E}.

Lemma silent_refl (w : @World E) : silent_step w w.
Proof. repeat split. Qed.

Lemma silent_trans (w1 w2 w3 : @World E) :
  silent_step w1 w2 -> silent_step w2 w3 -> silent_step w1 w3.
Proof. intros (A1 & B1 & C1) (A2 & B2 & C2). repeat split; congruence. Qed.

Lemma silent_env {A} (f : E -> outcome A * E) : steps silent_step (env f).
Proof. intros w. unfold env. destruct (f (backend w)). repeat split. Qed.

Lemma silent_now : steps silent_step now.
Proof.
  intros w. unfold now. destruct (time_time (backend w)). repeat split.
Qed.

Ltac silent :=
  repeat first
    [ apply silent_env | apply silent_now
    | apply (steps_ret silent_step silent_refl)
    | apply (steps_raise silent_step silent_refl)
    | apply (steps_bind silent_step silent_trans); [|intros ?]
    | apply (steps_try_except silent_step silent_trans); [|intros ?]
    | apply (steps_if silent_step)
    | match goal with
      | |- steps _ (match ?x with _ => _ end) => destruct x
      end ].


Lemma logged_then_silent {A} (c : Connector) (m : method)
    (rest : M (@World E) A) :
  steps silent_step rest ->
  forall w, logged c m w (snd (bind (log c m) (fun _ => rest) w)).
Proof.
  intros H w. unfold bind, log, modify.
  destruct (H {| _connectors := _connectors w; next_oid := next_oid w;
                 calls := calls w ++ [Call (oid c) m];
                 backend := backend w |}) as (A1 & B1 & C1).
  repeat split; assumption.
Qed.

Lemma c_execute_logged (c : Connector) (q : string) (p : parameters_t)
    (w : World) :
  logged c (m_execute_query q) w (snd (c_execute_query c q p w)).
Proof.
  unfold c_execute_query. apply logged_then_silent.
  unfold _execute, no_handle. silent.
Qed.

Lemma close_logged (c : Connector) (w : World) :
  logged c m_close w (snd (close c w)).
Proof.
  unfold close. apply logged_then_silent. unfold disconnect. silent.
Qed.
End Silent.

Section Reuse.
Context {E : Type} {environment : Environment E} {parser : SqlParse}.


(** A query for a descriptor whose key is cached runs on the cached
    connector, when validation is off or passes: the call of its
    execute_query with the text of the query is the only connector call
    made; no connector is constructed or connected and the cache is
    unchanged. *)
Theorem cached_descriptor_is_reused (q : DatabaseQuery) (vs : bool)
    (w : World) (c : Connector) :
  dict_get (_conn_key (database_connection q)) (_connectors w) = Some c ->
  vs = false \/ is_safe (assess_query_risk (query q)) = true ->
  logged c (m_execute_query (query q)) w (after (execute_query q vs) w).
Proof.
  intros G Hgo. unfold after, execute_query, bind at 1, now.
  destruct (time_time (backend w)) as [t0 e0].
  assert (Hbody : execute_query_body t0 q vs = run_on_connector t0 q).
  { unfold execute_query_body. destruct Hgo as [->|Hs]; [reflexivity|].
    rewrite Hs. now destruct vs. }
  rewrite Hbody. unfold try_except, run_on_connector.
  assert (G0 : dict_get (_conn_key (database_connection q))
                 (_connectors (with_backend e0 w)) = Some c) by exact G.
  rewrite (bind_return _ _ _ _ _ (get_connector_hit _ _ _ G0)).
  unfold bind at 1.
  pose proof (c_execute_logged c (query q) (parameters q) (with_backend e0 w))
    as L.
  destruct (c_execute_query c (query q) (parameters q) (with_backend e0 w))
    as [[res|e] w1]; cbn [snd] in L.
  - unfold bind, now, ret. destruct (time_time (backend w1)) as [t1 e1].
    exact L.
  - unfold bind, now, ret. destruct (time_time (backend w1)) as [t1 e1].
    exact L.
Qed.
End Reuse.

Section DictMore.
Context {V : Type}.



Lemma dict_remove_appended (k : string) (v : V) (d : dict V) :
  dict_get k d = None -> dict_remove k (d ++ [(k, v)])%list = d.
Proof.
  induction d as [|[k0 v0] rest IH]; cbn.
  - now rewrite String.eqb_refl.
  - destruct (String.eqb k k0); [discriminate|]. intros H. now rewrite IH.
Qed.

End DictMore.

Section Closing.
Context {E : Type} {environment : Environment E}.

(** What [close_connection] does, by the outcome of [close]. *)
Lemma close_connection_run (d : DatabaseConnection) (w : World) :
  match dict_get (_conn_key d) (_connectors w) with
  | None => close_connection d w = (Return tt, w)
  | Some c =>
      match close c w with
      | (Return _, w1) =>
          close_connection d w
          = (Return tt, with_connectors (dict_remove (_conn_key d)) w1)
      | (Raise e, w1) => close_connection d w = (Raise e, w1)
      end
  end.
Proof.
  unfold close_connection.
  rewrite (bind_return (gets _) _ w w _ eq_refl).
  destruct (dict_get (_conn_key d) (_connectors w)) as [c|] eqn:G;
    [|reflexivity].
  unfold bind. pose proof (close_logged c w) as (Hc & _ & _).
  destruct (close c w) as [[c'|e] w1]; cbn [snd] in Hc; [|reflexivity].
  unfold del_connector, bind, gets, modify. now rewrite Hc, G.
Qed.


(** Resolving a descriptor that was not cached and then closing its
    connection gives back the cache as it was; the connector that was
    made has been called twice, to connect and to close. *)
Theorem resolve_then_close_restores_cache (d : DatabaseConnection)
    (w w1 w2 : World) (c : Connector) :
  dict_get (_conn_key d) (_connectors w) = None ->
  _get_connector d w = (Return c, w1) ->
  close_connection d w1 = (Return tt, w2) ->
  _connectors w2 = _connectors w
  /\ calls w2 = (calls w ++ [Call (oid c) m_connect; Call (oid c) m_close])%list.
Proof.
  intros G R C.
  destruct (get_connector_cases d w w1 c R)
    as [[G' _]|(_ & _ & _ & Hc & _ & Hl)]; [congruence|].
  pose proof (close_connection_run d w1) as H.
  assert (G1 : dict_get (_conn_key d) (_connectors w1) = Some c)
    by exact (get_connector_cached d w w1 c R).
  rewrite G1 in H. pose proof (close_logged c w1) as (Hc1 & _ & Hl1).
  destruct (close c w1) as [[c'|e] w1']; cbn [snd] in *;
    rewrite H in C; [|discriminate].
  injection C as <-. cbn [_connectors with_connectors calls].
  rewrite Hc1, Hc, Hl1, Hl, <- app_assoc.
  split; [now apply dict_remove_appended|reflexivity].
Qed.
End Closing.

Lemma cached_descriptor_is_reused_witness :
  dict_get (_conn_key orders) (_connectors one_cached) = Some live_connector
  /\ logged live_connector (m_execute_query "DROP TABLE users") one_cached
       (after (@execute_query _ healthy nonblank_parser drop_users false)
          one_cached).
Proof.
  assert (H : dict_get (_conn_key orders) (_connectors one_cached)
              = Some live_connector) by (vm_compute; reflexivity).
  split; [exact H|].
  exact (@cached_descriptor_is_reused _ healthy nonblank_parser drop_users
           false one_cached live_connector H (or_introl eq_refl)).
Defined.



Lemma resolve_then_close_restores_cache_witness :
  let w1 := after (@_get_connector _ healthy orders) (init stub0) in
  let w2 := after (@close_connection _ healthy orders) w1 in
  _connectors w2 = []
  /\ calls w2 = [Call 0 m_connect; Call 0 m_close].
Proof.
  intros w1 w2.
  refine (@resolve_then_close_restores_cache _ healthy orders (init stub0)
            w1 w2 live_connector _ _ _); vm_compute; reflexivity.
Defined.

End CacheFacts.

(* ===================================================================== *)
(** * The results of the multiplexer *)
(* ===================================================================== *)

Module ResultFacts.
Import Text Re Models RiskChecker Spec Py DbTool Service Notions Inv
  Examples MoreExamples ToolFacts CacheFacts.
Section Returns.
Context {E : Type} {environment : Environment E}.

Lemma returns_ret {A} (Q : A -> @World E -> Prop) (a : A) :
  (forall w, Q a w) -> returns Q (ret a).
Proof. intros H w. apply H. Qed.

Lemma returns_raise {A} (Q : A -> @World E -> Prop) (e : exn) :
  returns Q (raise e).
Proof. intros w. exact I. Qed.

Lemma returns_bind {A B} (Q : B -> @World E -> Prop) (m : M World A)
    (f : A -> M World B) :
  (forall a, returns Q (f a)) -> returns Q (bind m f).
Proof.
  intros H w. unfold bind. destruct (m w) as [[a|e] w1]; [apply H|exact I].
Qed.

Lemma returns_bind_val {A B} (P : A -> Prop) (Q : B -> @World E -> Prop)
    (m : M World A) (f : A -> M World B) :
  returns (fun a _ => P a) m -> (forall a, P a -> returns Q (f a)) ->
  returns Q (bind m f).
Proof.
  intros Hm H w. unfold bind. specialize (Hm w).
  destruct (m w) as [[a|e] w1]; [now apply H|exact I].
Qed.

Lemma returns_try_except {A} (Q : A -> @World E -> Prop) (m : M World A)
    (h : exn -> M World A) :
  returns Q m -> (forall e, returns Q (h e)) -> returns Q (try_except m h).
Proof.
  intros Hm Hh w. unfold try_except. specialize (Hm w).
  destruct (m w) as [[a|e] w1]; [exact Hm|apply Hh].
Qed.

Lemma returns_if {A} (Q : A -> @World E -> Prop) (c : bool)
    (m1 m2 : M World A) :
  returns Q m1 -> returns Q m2 -> returns Q (if c then m1 else m2).
Proof. destruct c; auto. Qed.
End Returns.

Section Verdict.
Context {E : Type} {environment : Environment E} {parser : SqlParse}.

(** validate_query never calls a query safe on its own account: an
    assessment it returns as safe is the assessment of the checker for
    that text, unchanged.  A syntax check that fails and an exception
    both give an unsafe assessment. *)
Theorem validate_query_safe_is_engine_verdict (text : string)
    (d : DatabaseConnection) (w w' : World) (a : QueryRiskAssessment) :
  validate_query text d w = (Return a, w') ->
  is_safe a = true ->
  a = assess_query_risk text.
Proof.
  intros Hrun.
  assert (H : returns (fun a (_ : @World E) =>
                         is_safe a = true -> a = assess_query_risk text)
                (validate_query text d)).
  { unfold validate_query, validate_query_body.
    apply returns_try_except.
    - apply returns_bind. intros c. apply returns_bind. intros ok.
      apply returns_if; apply returns_ret; intros _; [discriminate|auto].
    - intros e. apply returns_ret. intros _. discriminate. }
  specialize (H w). rewrite Hrun in H. exact H.
Qed.

Lemma shaped_execute (h : nat) (text : string) (p : parameters_t) :
  returns (fun r (_ : @World E) => well_shaped text r /\ success r = true)
    (_execute h text p).
Proof.
  unfold _execute, get_query_type. apply returns_bind. intros _.
  unfold well_shaped.
  destruct (Base._parse_query_type text) eqn:T; apply returns_bind;
    intros x; apply returns_ret; intros _; cbn; rewrite ?T;
    repeat split; try reflexivity.
  eexists. repeat split. discriminate.
Qed.

Lemma shaped_set_time (text : string) (t : Q) (r : QueryResult) :
  well_shaped text r -> well_shaped text (set_execution_time t r).
Proof. intros H. exact H. Qed.

Lemma shaped_failed (text msg : string) (t : Q) :
  well_shaped text (failed_result msg t).
Proof. cbn. repeat split. discriminate. Qed.

Lemma execute_query_returns (q : DatabaseQuery) (vs : bool) (w : World) :
  exists r w', execute_query q vs w = (Return r, w').
Proof.
  unfold execute_query, bind, now, try_except.
  destruct (time_time (backend w)) as [t0 e0].
  destruct (execute_query_body t0 q vs (with_backend e0 w)) as [[r|e] w1].
  - now exists r, w1.
  - unfold ret. destruct (time_time (backend w1)). eexists. eexists.
    reflexivity.
Qed.

(** Every result of execute_query has one of two shapes.  A success has
    no error message and the query type of its text, with rows, their
    count and columns for a SELECT and neither rows nor columns
    otherwise.  A failure has an error message, no rows, a row count of
    0, no columns, and the query type SELECT whatever the text was. *)
Theorem results_are_well_shaped (q : DatabaseQuery) (vs : bool) (w : World) :
  returned (result (execute_query q vs) w) (well_shaped (query q)).
Proof.
  assert (H : returns (fun r (_ : @World E) => well_shaped (query q) r)
                (execute_query q vs)).
  { assert (Hrun : forall start,
               returns (fun r (_ : @World E) => well_shaped (query q) r)
                 (run_on_connector start q)).
    { intros start. unfold run_on_connector. apply returns_bind. intros c.
      apply (returns_bind_val
               (fun r => well_shaped (query q) r /\ success r = true)).
      - unfold c_execute_query, no_handle. apply returns_bind. intros _.
        apply returns_if; [apply returns_raise|].
        destruct (_connection c); [apply shaped_execute|apply returns_raise].
      - intros res [Hres _]. apply returns_bind. intros t.
        apply returns_ret. intros _. exact Hres. }
    unfold execute_query. apply returns_bind. intros start.
    apply returns_try_except.
    - unfold execute_query_body.
      destruct vs; [|apply Hrun].
      destruct (negb _); [|apply Hrun].
      apply returns_bind. intros t. apply returns_ret. intros _.
      apply shaped_failed.
    - intros e. apply returns_bind. intros t. apply returns_ret. intros _.
      apply shaped_failed. }
  unfold result, returned. specialize (H w).
  destruct (execute_query_returns q vs w) as (r & w' & Hrun).
  rewrite Hrun in *. exact H.
Qed.

(** The execution time of every result, a blocked or failed one as well,
    is the last reading of the clock minus the first, and the last
    reading is the last thing the call does to the environment. *)
Theorem execution_time_spans_the_call (q : DatabaseQuery) (vs : bool)
    (w : World) :
  returned (result (execute_query q vs) w)
    (fun r =>
       exists e,
         backend (after (execute_query q vs) w) = snd (time_time e)
         /\ execution_time r
            = (fst (time_time e) - fst (time_time (backend w)))%Q).
Proof.
  unfold result, returned, after, execute_query. unfold bind at 1 3, now at 1 3.
  destruct (time_time (backend w)) as [t0 e0]. cbn [fst].
  set (Qt := fun (r : QueryResult) (w' : @World E) =>
               exists e, backend w' = snd (time_time e)
                         /\ execution_time r = (fst (time_time e) - t0)%Q).
  assert (Hlast : forall (g : Q -> QueryResult),
             (forall t, execution_time (g t) = t) ->
             returns Qt (bind now (fun t => ret (g (t - t0)%Q)))).
  { intros g Hg w1. unfold bind, now, ret.
    destruct (time_time (backend w1)) as [t1 e1] eqn:T.
    exists (backend w1). rewrite T. cbn. split; [reflexivity|apply Hg]. }
  assert (H : returns Qt
                (try_except (execute_query_body t0 q vs)
                   (fun e => bind now
                      (fun t => ret (failed_result (e_str e) (t - t0)%Q))))).
  { assert (Hrun : returns Qt (run_on_connector t0 q)).
    { unfold run_on_connector. apply returns_bind. intros c.
      apply returns_bind. intros res.
      apply (Hlast (fun t => set_execution_time t res)). reflexivity. }
    apply returns_try_except.
    - unfold execute_query_body. destruct vs; [|exact Hrun].
      destruct (negb _); [|exact Hrun].
      apply (Hlast (fun t => failed_result _ t)). reflexivity.
    - intros e. apply (Hlast (fun t => failed_result _ t)). reflexivity. }
  specialize (H (with_backend e0 w)).
  destruct (try_except _ _ (with_backend e0 w)) as [[r|e] w'] eqn:Hrun;
    cbn [fst snd]; [exact H|].
  exfalso. revert Hrun. unfold try_except.
  destruct (execute_query_body t0 q vs (with_backend e0 w)) as [[r|e1] w1];
    [discriminate|].
  unfold bind, now, ret. destruct (time_time (backend w1)). discriminate.
Qed.
End Verdict.

Lemma validate_query_safe_is_engine_verdict_witness :
  result (@validate_query _ healthy nonblank_parser "SELECT 1" orders)
    (init stub0)
  = Return (@assess_query_risk nonblank_parser "SELECT 1").
Proof.
  refine (f_equal Return
            (@validate_query_safe_is_engine_verdict _ healthy nonblank_parser
               "SELECT 1" orders (init stub0)
               (after (@validate_query _ healthy nonblank_parser "SELECT 1"
                         orders) (init stub0))
               (@assess_query_risk nonblank_parser "SELECT 1") _ _) ).
  - vm_compute. reflexivity.
  - vm_compute. reflexivity.
Defined.

End ResultFacts.

(* ===================================================================== *)
(** * The life cycle of a connector *)
(* ===================================================================== *)

Module ConnectorFacts.
Import Text Re Models RiskChecker Spec Py DbTool Service Notions Inv
  Examples MoreExamples ToolFacts CacheFacts ResultFacts.
Section Lifecycle.
Context {E : Type} {environment : Environment E} {catalogue : SchemaDriver E}.

(** A connector that is not connected never reaches the driver:
    execute_query, get_schema and list_tables raise the RuntimeError Not
    connected, validate_syntax and test_connection answer False, and
    close does nothing. *)
Theorem disconnected_connector_never_reaches_driver (c : Connector)
    (w : World) :
  _is_connected c = false ->
  (forall q p, result (c_execute_query c q p) w = Raise not_connected
               /\ backend (after (c_execute_query c q p) w) = backend w)
  /\ (forall q, result (c_validate_syntax c q) w = Return false
                /\ backend (after (c_validate_syntax c q) w) = backend w)
  /\ (result (c_test_connection c) w = Return false
      /\ backend (after (c_test_connection c) w) = backend w)
  /\ (result (c_get_schema c) w = Raise not_connected
      /\ after (c_get_schema c) w = w)
  /\ (forall s, result (c_list_tables c s) w = Raise not_connected
                /\ after (c_list_tables c s) w = w)
  /\ (result (close c) w = Return c
      /\ backend (after (close c) w) = backend w).
Proof.
  intros H. unfold result, after, c_execute_query, c_validate_syntax,
    c_test_connection, c_get_schema, c_list_tables, close, bind, log, modify.
  rewrite H. cbn. repeat split.
Qed.

(** After a close that returned, the connector is not connected, and
    closing it again returns the same connector without a call of the
    driver. *)
Theorem close_is_idempotent (c c1 : Connector) (w w1 : World) :
  close c w = (Return c1, w1) ->
  _is_connected c1 = false
  /\ result (close c1) w1 = Return c1
  /\ backend (after (close c1) w1) = backend w1.
Proof.
  intros H.
  assert (Hd : _is_connected c1 = false).
  { revert H. unfold close, bind, log, modify.
    destruct (_is_connected c) eqn:U.
    - unfold disconnect. destruct (_connection c) as [h|].
      + unfold bind, env. cbn [backend].
        destruct (driver_close h (backend w)) as [[[]|e] e1];
          [|discriminate]. intros [= <- _]. reflexivity.
      + intros [= <- _]. reflexivity.
    - intros [= <- _]. exact U. }
  split; [exact Hd|].
  unfold result, after, close, bind, log, modify. rewrite Hd. cbn.
  split; reflexivity.
Qed.

(** connect.  When it returns, the connector is connected and holds the
    handle the driver gave; its identity and descriptor are unchanged.
    It raises only when the driver does: an error of the driver comes
    out as a ConnectionError with the same message, any other exception
    as it is. *)
Theorem connect_outcome (c : Connector) (w : World) :
  match connect c w with
  | (Return c1, w1) =>
      _is_connected c1 = true /\ oid c1 = oid c
      /\ connection c1 = connection c
      /\ exists h e1, driver_connect (connection c) (backend w) = (Return h, e1)
                      /\ _connection c1 = Some h
  | (Raise e, w1) =>
      e_class e <> DriverError
      /\ exists e0 e1,
           driver_connect (connection c) (backend w) = (Raise e0, e1)
           /\ e_str e = e_str e0
           /\ (e_class e0 = DriverError -> e_class e = ConnectionError)
           /\ (e_class e0 <> DriverError -> e = e0)
  end.
Proof.
  unfold connect, bind, log, modify, try_except, env. cbn [backend].
  destruct (driver_connect (connection c) (backend w)) as [[h|e0] e1].
  - cbn. repeat split. now exists h, e1.
  - unfold is_driver_error. destruct (e_class e0) eqn:C; cbn;
      (split; [congruence|]); exists e0, e1; repeat split; congruence.
Qed.
End Lifecycle.

Section Unsupported.
Context {E : Type} {environment : Environment E} {catalogue : SchemaDriver E}
        {parser : SqlParse}.

Lemma key_fixes_type (d1 d2 : DatabaseConnection) :
  _conn_key d1 = _conn_key d2 -> database_type d1 = database_type d2.
Proof.
  unfold _conn_key. intros K.
  apply split_at_colon in K as [Kt _]; try apply format_colon_free.
  now apply format_inj.
Qed.

Lemma unsupported_is_never_cached (d : DatabaseConnection) (w : @World E) :
  cache_ok w -> _connector_types (database_type d) = None ->
  dict_get (_conn_key d) (_connectors w) = None.
Proof.
  intros (F & _) T.
  destruct (dict_get (_conn_key d) (_connectors w)) as [c|] eqn:G;
    [|reflexivity].
  apply dict_get_In in G. rewrite Forall_forall in F.
  destruct (F _ G) as (Hk & Hs & _). cbn [fst snd] in *.
  apply key_fixes_type in Hk. rewrite Hk in T. contradiction.
Qed.


Lemma resolve_unsupported (d : DatabaseConnection) (w : @World E) :
  cache_ok w -> _connector_types (database_type d) = None ->
  _get_connector d w = (Raise (unsupported d), w).
Proof.
  intros Hok T. unfold _get_connector, bind, gets.
  now rewrite (unsupported_is_never_cached d w Hok T), T.
Qed.

(** A descriptor whose backend is outside the connector table, sqlite
    for one, never reaches a connector.  execute_query returns a failure
    with the message Unsupported database type and the member as it
    is formatted (DatabaseType.SQLITE), validate_query an unsafe
    assessment with Validation failed and that message, test_connection
    False; the schema readers raise the ValueError.  The cache, the
    allocator and the record of calls are as before. *)
Theorem unsupported_backend_behaviour (d : DatabaseConnection) (w : World) :
  cache_ok w ->
  _connector_types (database_type d) = None ->
  (forall text p t m,
      let q := {| query := text; parameters := p; database_connection := d;
                  timeout := t; max_rows := m |} in
      returned (result (execute_query q false) w)
        (fun r => success r = false
                  /\ error_message r = Some (e_str (unsupported d)))
      /\ silent_step w (after (execute_query q false) w))
  /\ (forall text,
        returned (result (validate_query text d) w)
          (fun a => is_safe a = false
                    /\ recommendation a
                       = Some ("Validation failed: " ++ e_str (unsupported d)))
        /\ after (validate_query text d) w = w)
  /\ test_connection d w = (Return false, w)
  /\ get_database_schema d w = (Raise (unsupported d), w)
  /\ (forall s, list_tables d s w = (Raise (unsupported d), w)).
Proof.
  intros Hok T. split; [|split; [|split; [|split]]].
  - intros text p t m q.
    assert (Hrun : exists r e,
               execute_query q false w = (Return r, with_backend e w)
               /\ success r = false
               /\ error_message r = Some (e_str (unsupported d))).
    { unfold execute_query, bind at 1, now.
      destruct (time_time (backend w)) as [t0 e0].
      unfold try_except, execute_query_body, run_on_connector.
      assert (Hok0 : cache_ok (with_backend e0 w)) by exact Hok.
      unfold bind at 1. cbn [database_connection q].
      rewrite (resolve_unsupported d _ Hok0 T).
      unfold bind, now, ret. cbn [backend with_backend].
      destruct (time_time e0) as [t1 e1].
      eexists. exists e1. repeat split. }
    destruct Hrun as (r & e & Hrun & Hs & Hm).
    unfold result, after. rewrite Hrun. cbn. repeat split; assumption.
  - intros text.
    assert (Hrun : exists a,
               validate_query text d w = (Return a, w)
               /\ is_safe a = false
               /\ recommendation a
                  = Some ("Validation failed: " ++ e_str (unsupported d))).
    { unfold validate_query, try_except, validate_query_body.
      unfold bind at 1. rewrite (resolve_unsupported d _ Hok T).
      eexists. repeat split. }
    destruct Hrun as (a & Hrun & Hs & Hm).
    unfold result, after. rewrite Hrun. cbn. repeat split; assumption.
  - unfold test_connection, try_except, test_connection_body, bind.
    now rewrite (resolve_unsupported d _ Hok T).
  - unfold get_database_schema, bind.
    now rewrite (resolve_unsupported d _ Hok T).
  - intros s. unfold list_tables, bind.
    now rewrite (resolve_unsupported d _ Hok T).
Qed.
End Unsupported.

Lemma disconnected_connector_never_reaches_driver_witness :
  result (@c_execute_query _ healthy fresh_connector "SELECT 1" None)
    (init stub0)
  = Raise not_connected.
Proof.
  refine (proj1 (proj1 (@disconnected_connector_never_reaches_driver
                          _ healthy empty_catalogue fresh_connector
                          (init stub0) _) "SELECT 1" None)).
  reflexivity.
Defined.

Lemma close_is_idempotent_witness :
  let c1 := with_link None false live_connector in
  let w1 := after (@close _ healthy live_connector) one_cached in
  result (@close _ healthy c1) w1 = Return c1.
Proof.
  intros c1 w1.
  refine (proj1 (proj2 (@close_is_idempotent _ healthy live_connector c1
                          one_cached w1 _))).
  vm_compute. reflexivity.
Defined.

Lemma unsupported_backend_behaviour_witness :
  returned
    (result (@execute_query _ healthy nonblank_parser select_local false)
       (init stub0))
    (fun r =>
       success r = false
       /\ error_message r
          = Some "Unsupported database type: DatabaseType.SQLITE")
  /\ @test_connection _ healthy local_file (init stub0)
     = (Return false, init stub0).
Proof.
  assert (Hok : cache_ok (@init stub_state stub0))
    by (repeat split; constructor).
  destruct (@unsupported_backend_behaviour _ healthy empty_catalogue
              nonblank_parser local_file (init stub0) Hok eq_refl)
    as (Hq & _ & Ht & _).
  split; [|exact Ht].
  exact (proj1 (Hq "SELECT 1" None 30%Z None)).
Defined.

End ConnectorFacts.

(* ===================================================================== *)
(** * The tool server *)
(* ===================================================================== *)

Module ServerFacts.
Import Text Re Models RiskChecker Spec Py DbTool Service Notions Inv
  Examples MoreExamples ToolFacts CacheFacts ResultFacts ConnectorFacts.

Section Tools.
Context {E : Type} {environment : Environment E} {catalogue : SchemaDriver E}
        {parser : SqlParse}.

Lemma validate_query_returns (text : string) (d : DatabaseConnection)
    (w : World) :
  exists a w', validate_query text d w = (Return a, w').
Proof.
  unfold validate_query, try_except.
  destruct (validate_query_body text d w) as [[a|e] w1]; eexists; eexists;
    reflexivity.
Qed.

Lemma test_connection_returns (d : DatabaseConnection) (w : World) :
  exists ok w', test_connection d w = (Return ok, w').
Proof.
  unfold test_connection, try_except.
  destruct (test_connection_body d w) as [[a|e] w1]; eexists; eexists;
    reflexivity.
Qed.

Lemma build_connection_run (t : target) (w : @World E) :
  match DatabaseType_of (t_database_type t) with
  | Return dt =>
      exists d, _build_connection t w = (Return d, w)
                /\ database_type d = dt /\ host d = t_host t
                /\ port d = t_port t /\ database d = t_database t
                /\ username d = t_username t
  | Raise e => _build_connection t w = (Raise e, w)
  end.
Proof.
  unfold _build_connection.
  destruct (DatabaseType_of (t_database_type t)); [|reflexivity].
  eexists. split; [reflexivity|]. repeat split.
Qed.

(** The tools of the server.  When database_type is not the value of a
    member, each of the five tools raises the ValueError of the
    enumeration before it touches the tool state.  Otherwise db_query,
    db_validate and db_test_connection return: no failure of a backend
    comes out of them as an exception. *)
Theorem tools_raise_only_for_unknown_backend_name (t : target) (w : World) :
  match DatabaseType_of (t_database_type t) with
  | Return _ =>
      (forall text p to mr,
          exists r w', db_query text t p to mr w = (Return r, w'))
      /\ (forall text, exists a w', db_validate text t w = (Return a, w'))
      /\ (exists ok w', db_test_connection t w = (Return ok, w'))
  | Raise e =>
      e_class e = ValueError
      /\ (forall text p to mr, db_query text t p to mr w = (Raise e, w))
      /\ (forall text, db_validate text t w = (Raise e, w))
      /\ db_test_connection t w = (Raise e, w)
      /\ db_schema t w = (Raise e, w)
      /\ (forall s, db_list_tables t s w = (Raise e, w))
  end.
Proof.
  pose proof (build_connection_run t w) as B.
  destruct (DatabaseType_of (t_database_type t)) as [dt|e] eqn:D.
  - destruct B as (d & B & _). split; [|split].
    + intros. unfold db_query. rewrite (bind_return _ _ _ _ _ B).
      apply execute_query_returns.
    + intros. unfold db_validate. rewrite (bind_return _ _ _ _ _ B).
      apply validate_query_returns.
    + unfold db_test_connection. rewrite (bind_return _ _ _ _ _ B).
      apply test_connection_returns.
  - assert (Hc : e_class e = ValueError).
    { revert D. unfold DatabaseType_of.
      repeat match goal with
             | |- context [String.eqb ?a ?b] => destruct (String.eqb a b)
             end; try discriminate. now intros [= <-]. }
    unfold db_query, db_validate, db_test_connection, db_schema,
      db_list_tables, bind. rewrite B. repeat split. exact Hc.
Qed.

Lemma blocked_run (q : DatabaseQuery) (w : World) :
  is_safe (assess_query_risk (query q)) = false ->
  exists r e,
    execute_query q true w = (Return r, with_backend e w)
    /\ success r = false
    /\ error_message r = recommendation (assess_query_risk (query q)).
Proof.
  intros Hunsafe.
  destruct (assessment_recommends (query q)) as (s & Hs & Hne).
  unfold execute_query, execute_query_body, bind, try_except, now, ret.
  rewrite Hunsafe. cbn [negb].
  destruct (time_time (backend w)) as [t0 e0]. cbn [backend with_backend].
  destruct (time_time e0) as [t1 e1].
  eexists. exists e1. split; [reflexivity|]. cbn.
  rewrite Hs, (or_default_some s _ Hne). split; reflexivity.
Qed.

(** db_query cannot switch validation off: it calls execute_query with
    its default.  A text the checker calls unsafe is answered with a
    failure that carries the recommendation, and the cache, the
    allocator and the record of connector calls are left as they
    were. *)
Theorem db_query_always_validates (text : string) (t : target)
    (p : parameters_t) (to : Z) (mr : option Z) (w : World) :
  (exists dt, DatabaseType_of (t_database_type t) = Return dt) ->
  is_safe (assess_query_risk text) = false ->
  returned (result (db_query text t p to mr) w)
    (fun r => success r = false
              /\ error_message r = recommendation (assess_query_risk text))
  /\ silent_step w (after (db_query text t p to mr) w).
Proof.
  intros [dt D] Hu. pose proof (build_connection_run t w) as B.
  rewrite D in B. destruct B as (d & B & _).
  unfold result, after, db_query. rewrite (bind_return _ _ _ _ _ B).
  set (q := {| query := text; parameters := p; database_connection := d;
               timeout := to; max_rows := mr |}).
  destruct (blocked_run q w Hu) as (r & e & Hrun & Hs & Hm).
  rewrite Hrun. cbn. repeat split; assumption.
Qed.

(** lifespan.  When no close of the driver raises, shutting the server
    down hands on the outcome of serving, an exception included, closes
    every connector that is cached at that moment once, in cache order,
    and leaves the cache empty. *)
Theorem shutdown_closes_everything {A} (serve : M (@World E) A) (w : World) :
  (forall h e, exists e', driver_close h e = (Return tt, e')) ->
  result (lifespan serve) w = result serve w
  /\ _connectors (after (lifespan serve) w) = []
  /\ calls (after (lifespan serve) w)
     = (calls (after serve w)
        ++ map (fun kv => Call (oid (snd kv)) m_close)
             (_connectors (after serve w)))%list.
Proof.
  intros Hclose. unfold result, after, lifespan, try_finally.
  destruct (serve w) as [[a|e] w1]; cbn [fst snd];
    destruct (close_all_when_no_close_raises Hclose w1)
      as (w2 & -> & Hc & Hl); cbn [fst snd]; repeat split; assumption.
Qed.
End Tools.

Lemma db_query_always_validates_witness :
  returned
    (result (@db_query _ healthy nonblank_parser "DROP TABLE users"
               orders_target None 30 None) (init stub0))
    (fun r => success r = false
              /\ error_message r
                 = recommendation
                     (@assess_query_risk nonblank_parser "DROP TABLE users")).
Proof.
  refine (proj1 (@db_query_always_validates _ healthy nonblank_parser
                   "DROP TABLE users" orders_target None 30%Z None
                   (init stub0) _ _)).
  - exists POSTGRESQL. reflexivity.
  - vm_compute. reflexivity.
Defined.

Lemma shutdown_closes_everything_witness :
  _connectors
    (after (@lifespan _ healthy bool (@test_connection _ healthy orders))
       (init stub0))
  = [].
Proof.
  refine (proj1 (proj2 (@shutdown_closes_everything _ healthy bool
                          (@test_connection _ healthy orders)
                          (init stub0) _))).
  intros h e. exists e. reflexivity.
Defined.

End ServerFacts.

(* ===================================================================== *)
(** * The agent *)
(* ===================================================================== *)

Module AgentFacts.
Import Text Re Models RiskChecker Spec Py Service Agent Notions
  MoreExamples BaseFacts CaseFacts.

Ltac by_cases_in c :=
  destruct c as [[] [] [] [] [] [] [] []]; cbn; intros; congruence.

Lemma lower_isspace c : isspace (lower_char c) = isspace c.
Proof. by_cases_on c. Qed.

Lemma lower_to_upper c :
  between 97 122 (lower_char c) = true ->
  upper_char c = upper_char (lower_char c).
Proof. by_cases_in c. Qed.

Lemma upper_to_lower c :
  between 65 90 (upper_char c) = true ->
  lower_char c = lower_char (upper_char c).
Proof. by_cases_in c. Qed.

Lemma upper_lower_letter k :
  between 65 90 k = true ->
  upper_char (lower_char k) = k /\ between 97 122 (lower_char k) = true.
Proof.
  destruct k as [[] [] [] [] [] [] [] []]; cbn; intros; split;
    congruence.
Qed.


Lemma prefix_lower_upper (kw : string) :
  all_capital kw = true ->
  forall t, String.prefix (lower kw) (lower t) = String.prefix kw (upper t).
Proof.
  induction kw as [|k kw IH]; intros Hk t; [destruct t; reflexivity|].
  cbn [all_capital] in Hk. apply andb_true_iff in Hk as [Hk Hkw].
  destruct t as [|c t]; [reflexivity|]. cbn [lower upper String.prefix].
  destruct (upper_lower_letter k Hk) as [Hul Hl].
  destruct (ascii_dec (lower_char k) (lower_char c)) as [e|n];
    destruct (ascii_dec k (upper_char c)) as [e'|n']; auto.
  - exfalso. apply n'.
    rewrite (lower_to_upper c); [|now rewrite <- e]. now rewrite <- e.
  - exfalso. apply n. subst k. now rewrite <- (upper_to_lower c).
Qed.

Lemma lstrip_lower s : lstrip (lower s) = lower (lstrip s).
Proof.
  induction s as [|c s IH]; cbn [lstrip lower]; [reflexivity|].
  rewrite lower_isspace. destruct (isspace c); [exact IH|reflexivity].
Qed.

Lemma rstrip_lower s : rstrip (lower s) = lower (rstrip s).
Proof.
  induction s as [|c s IH]; cbn [rstrip lower]; [reflexivity|].
  rewrite IH, lower_isspace.
  destruct (rstrip s); cbn [lower]; [destruct (isspace c)|]; reflexivity.
Qed.

Lemma strip_lower s : strip (lower s) = lower (strip s).
Proof. unfold strip. now rewrite lstrip_lower, rstrip_lower. Qed.

(** A lower-case keyword test on the lowered text is the upper-case
    test of the classifier. *)
Lemma keyword_test (q : string) (k : QueryType) :
  startswith (lower (strip q)) (lower (QueryType_value k))
  = startswith (upper (strip q)) (QueryType_value k).
Proof.
  unfold startswith. apply prefix_lower_upper. now destruct k.
Qed.

(** _is_sql of the agent and the classifier of the connectors test the
    same thing: a text is SQL for the agent exactly when it starts,
    after stripping and in any letter case, with one of the seven
    keywords of the classifier; what the agent does not take for SQL the
    classifier would call a SELECT. *)
Theorem is_sql_is_the_classifier_test (q : string) :
  (_is_sql q = true
   <-> exists k, startswith (upper (strip q)) (QueryType_value k) = true)
  /\ (_is_sql q = false -> Base._parse_query_type q = SELECT).
Proof.
  assert (H : _is_sql q
              = existsb (fun k => startswith (upper (strip q))
                                    (QueryType_value k)) keywords).
  { unfold _is_sql, keywords. cbn [existsb].
    rewrite <- !keyword_test. cbn [lower QueryType_value].
    now rewrite orb_false_r, !orb_assoc. }
  split.
  - rewrite H, existsb_exists. split.
    + intros (k & _ & Hk). now exists k.
    + intros (k & Hk). exists k. split; [|exact Hk]. destruct k; cbn; auto 10.
  - intros Hf. apply classify_default. intros k.
    destruct (startswith (upper (strip q)) (QueryType_value k)) eqn:Hk;
      [|reflexivity].
    rewrite H in Hf.
    assert (existsb (fun k => startswith (upper (strip q))
                                (QueryType_value k)) keywords = true) as X.
    { apply existsb_exists. exists k. split; [|exact Hk].
      destruct k; cbn; auto 10. }
    congruence.
Qed.

Section RoutingFacts.
Context {model : LanguageModel}.

(** Whatever the model replies, a statement that route_intent_sql hands
    to db_query starts with select and is a SELECT for the classifier;
    the call is addressed to the database of the command line and
    carries no parameters. *)
Theorem routed_sql_is_a_select (dry : bool)
    (listing : outcome (option (list string))) (ns : namespace)
    (query name : string) (payload : query_payload) :
  route_intent_sql dry listing ns query = Return (name, payload) ->
  name = "db_query"
  /\ startswith (strip (lower (p_query payload))) "select" = true
  /\ Base._parse_query_type (p_query payload) = SELECT
  /\ p_target payload = target_of ns
  /\ p_parameters payload = None.
Proof.
  unfold route_intent_sql.
  destruct (generate_sql dry query _) as [sql|e]; [|discriminate].
  intros [= <- <-]. cbn [p_query p_target p_parameters].
  assert (Hs : startswith
                 (strip (lower (if negb (startswith (strip (lower sql))
                                           "select")
                                then "SELECT 1" else sql))) "select" = true).
  { destruct (startswith (strip (lower sql)) "select") eqn:G; cbn [negb];
      [exact G|reflexivity]. }
  split; [reflexivity|split; [exact Hs|split; [|split; reflexivity]]].
  apply classify_prefix. rewrite strip_lower in Hs.
  now rewrite <- (keyword_test _ SELECT).
Qed.

Lemma find_none_when {A} (f : A -> bool) (l : list A) :
  (forall x, In x l -> f x = false) -> find f l = None.
Proof.
  induction l as [|y l IH]; cbn; [reflexivity|]. intros H.
  rewrite (H y (or_introl eq_refl)). apply IH. intros x Hx. apply H.
  now right.
Qed.

Lemma find_first {A} (f : A -> bool) (pre post : list A) (x : A) :
  (forall y, In y pre -> f y = false) -> f x = true ->
  find f (pre ++ x :: post)%list = Some x.
Proof.
  induction pre as [|y pre IH]; cbn; intros Hpre Hx.
  - now rewrite Hx.
  - rewrite (Hpre y (or_introl eq_refl)). apply IH; [|exact Hx].
    intros z Hz. apply Hpre. now right.
Qed.

(** A dry run of [generate_sql] never raises and asks no model.  When
    no listed table is named in the request (its lower-cased name
    occurs in the lower-cased request) the statement is the constant
    one; otherwise it counts the rows of the first listed table that
    is named, unless that name is empty, and only the first: a later
    table named as well plays no part. *)
Theorem dry_run_counts_first_named_table (user_input : string)
    (tables : list string) :
  let named := fun t => contains (lower user_input) (lower t) in
  exists sql,
    generate_sql true user_input tables = Return sql
    /\ ((forall t, In t tables -> named t = false) -> sql = "SELECT 1")
    /\ (forall pre t post,
          tables = (pre ++ t :: post)%list ->
          (forall x, In x pre -> named x = false) -> named t = true ->
          sql = if String.eqb t "" then "SELECT 1"
                else "SELECT COUNT(*) AS count FROM " ++ t).
Proof.
  intros named. unfold generate_sql. fold named.
  destruct (find named tables) as [t0|] eqn:F.
  - exists (match t0 with
            | String c t => "SELECT COUNT(*) AS count FROM " ++ String c t
            | EmptyString => "SELECT 1"
            end).
    split; [now destruct t0|split].
    + intros Hnone. rewrite (find_none_when named tables Hnone) in F.
      discriminate.
    + intros pre t post -> Hpre Ht.
      rewrite (find_first named pre post t Hpre Ht) in F.
      injection F as <-. now destruct t.
  - exists "SELECT 1". split; [reflexivity|split; [reflexivity|]].
    intros pre t post -> Hpre Ht.
    rewrite (find_first named pre post t Hpre Ht) in F. discriminate.
Qed.
End RoutingFacts.

Lemma routed_sql_is_a_select_witness :
  let payload := {| p_query := "SELECT 1"; p_target := target_of orders_cli;
                    p_parameters := None |} in
  @route_intent_sql (canned "DROP TABLE users") false
    (Return (Some ["users"])) orders_cli "remove the users"
  = Return ("db_query", payload)
  /\ Base._parse_query_type (p_query payload) = SELECT.
Proof.
  intros payload.
  assert (H : @route_intent_sql (canned "DROP TABLE users") false
                (Return (Some ["users"])) orders_cli "remove the users"
              = Return ("db_query", payload)) by (vm_compute; reflexivity).
  split; [exact H|].
  exact (proj1 (proj2 (proj2 (@routed_sql_is_a_select
                                (canned "DROP TABLE users") false _ _ _ _ _
                                H)))).
Defined.

End AgentFacts.
